(** * dstore: the Google Storage store ([gsstore.go])

    A shallow embedding of [GSStore] and of the Go library functions its
    path handling relies on, followed by the properties of the store
    contract: the path/name codec, the conditional-write policy, the
    enumeration engine, and the error conventions of open / exists /
    delete / sub-store.

    Go strings are byte sequences: they are modelled by [string], whose
    characters ([ascii]) are exactly the 256 byte values.  A Go [error]
    value is [option error], [None] being [nil]. *)

From Stdlib Require Import String Ascii List Bool Arith ZArith Lia.
Import ListNotations.
Open Scope string_scope.

(** ** Go's [strings] package *)

Module strings.

(** [strings.HasPrefix(s, prefix)] *)
Definition HasPrefix (s pre : string) : bool := String.prefix pre s.

(** [strings.HasSuffix(s, suffix)]:
    [len(s) >= len(suffix) && s[len(s)-len(suffix):] == suffix] *)
Definition HasSuffix (s suf : string) : bool :=
  (String.length suf <=? String.length s)%nat &&
  String.eqb
    (substring (String.length s - String.length suf) (String.length suf) s)
    suf.

(** [strings.TrimPrefix(s, prefix)]: [s[len(prefix):]] when [s] starts
    with [prefix], otherwise [s] unchanged. *)
Definition TrimPrefix (s pre : string) : string :=
  if HasPrefix s pre
  then substring (String.length pre) (String.length s - String.length pre) s
  else s.

(** [strings.TrimSuffix(s, suffix)]: [s[:len(s)-len(suffix)]] when [s]
    ends with [suffix], otherwise [s] unchanged. *)
Definition TrimSuffix (s suf : string) : string :=
  if HasSuffix s suf
  then substring 0 (String.length s - String.length suf) s
  else s.

(** Membership of a byte in a cutset. *)
Fixpoint inCutset (cutset : string) (c : ascii) : bool :=
  match cutset with
  | EmptyString => false
  | String d rest => Ascii.eqb c d || inCutset rest c
  end.

(** [strings.TrimLeft(s, cutset)] for a cutset of ASCII bytes (the store
    only ever passes ["/"]): drop the leading bytes that are in the
    cutset. *)
Fixpoint TrimLeft (s cutset : string) : string :=
  match s with
  | EmptyString => EmptyString
  | String c rest => if inCutset cutset c then TrimLeft rest cutset else s
  end.

(** [strings.TrimRight(s, cutset)] for a cutset of ASCII bytes: drop the
    trailing bytes that are in the cutset.  A byte is kept when something
    after it is kept or when it is not in the cutset. *)
Fixpoint TrimRight (s cutset : string) : string :=
  match s with
  | EmptyString => EmptyString
  | String c rest =>
      match TrimRight rest cutset with
      | EmptyString =>
          if inCutset cutset c then EmptyString else String c EmptyString
      | kept => String c kept
      end
  end.

(** [strings.Join(elems, sep)] *)
Definition Join (elems : list string) (sep : string) : string :=
  String.concat sep elems.

End strings.

(** ** Go's [path] package

    [path.Clean] is transcribed from the Go standard library.  The loop
    reads [path] at index [r] and writes into a buffer [out] of [out.w]
    bytes; here the unread input [path[r:]] is the string argument and the
    buffer is the list of the bytes written so far (the library's lazy
    buffer is a copy-avoiding representation of the same contents). *)

Module path.

Definition slash : ascii := "/"%char.
Definition dot : ascii := "."%char.

Definition isSlash (c : ascii) : bool := Ascii.eqb c slash.
Definition isDot (c : ascii) : bool := Ascii.eqb c dot.

(** [r == n || path[r] == '/'] on the unread input. *)
Definition atEndOrSlash (rest : string) : bool :=
  match rest with
  | EmptyString => true
  | String c _ => isSlash c
  end.

(** [for out.w > dotdot && out.index(out.w) != '/' { out.w-- }]:
    the new write index, starting from [w]. *)
Fixpoint backtrack (buf : list ascii) (dotdot w : nat) : nat :=
  match w with
  | 0 => 0
  | S w' =>
      if (dotdot <? w)%nat && negb (isSlash (nth w buf slash))
      then backtrack buf dotdot w'
      else w
  end.

(** [for ; r < n && path[r] != '/'; r++ { out.append(path[r]) }]:
    the bytes copied and the input left. *)
Fixpoint copyElement (rest : string) : list ascii * string :=
  match rest with
  | EmptyString => ([], EmptyString)
  | String c rest' =>
      if isSlash c then ([], rest)
      else let (el, tl) := copyElement rest' in (c :: el, tl)
  end.

(** The body of [for r < n { switch ... }].  Every iteration consumes at
    least one byte of input, so [fuel = len(path)] iterations suffice
    ([cleanLoop_fuel] below). *)
Fixpoint cleanLoop (fuel : nat) (rooted : bool) (rest : string)
         (out : list ascii) (dotdot : nat) : list ascii :=
  match fuel with
  | 0 => out
  | S fuel' =>
    match rest with
    | EmptyString => out
    | String c rest1 =>
      if isSlash c then
        (* empty path element *)
        cleanLoop fuel' rooted rest1 out dotdot
      else if isDot c && atEndOrSlash rest1 then
        (* . element *)
        cleanLoop fuel' rooted rest1 out dotdot
      else if isDot c &&
              match rest1 with
              | EmptyString => false
              | String c1 rest2 => isDot c1 && atEndOrSlash rest2
              end then
        (* .. element: remove to last / *)
        let rest2 := match rest1 with
                     | EmptyString => EmptyString
                     | String _ r2 => r2
                     end in
        if (dotdot <? List.length out)%nat then
          (* can backtrack *)
          let w := backtrack out dotdot (List.length out - 1) in
          cleanLoop fuel' rooted rest2 (firstn w out) dotdot
        else if negb rooted then
          (* cannot backtrack, but not rooted, so append .. element *)
          let out1 := if (0 <? List.length out)%nat
                      then (out ++ [slash])%list else out in
          let out2 := (out1 ++ [dot; dot])%list in
          cleanLoop fuel' rooted rest2 out2 (List.length out2)
        else
          cleanLoop fuel' rooted rest2 out dotdot
      else
        (* real path element: add slash if needed, copy element *)
        let out1 :=
          if (rooted && negb (List.length out =? 1)%nat) ||
             (negb rooted && negb (List.length out =? 0)%nat)
          then (out ++ [slash])%list else out in
        let (el, rest') := copyElement rest in
        cleanLoop fuel' rooted rest' (out1 ++ el)%list dotdot
    end
  end.

(** [path.Clean(path)] *)
Definition Clean (p : string) : string :=
  match p with
  | EmptyString => "."
  | String c rest =>
      let rooted := isSlash c in
      let out :=
        if rooted
        then cleanLoop (String.length p) true rest [slash] 1
        else cleanLoop (String.length p) false p [] 0 in
      (* Turn empty string into "." *)
      if (List.length out =? 0)%nat then "." else string_of_list_ascii out
  end.

(** [path.Join(elem...)]: the elements from the first non-empty one on,
    joined with ["/"], cleaned; [""] when every element is empty. *)
Fixpoint Join (elem : list string) : string :=
  match elem with
  | [] => ""
  | e :: rest =>
      if String.eqb e "" then Join rest
      else Clean (strings.Join elem "/")
  end.

End path.

(** ** Go's [path/filepath] package

    On every platform where the separator is ['/'] (all but Windows)
    [filepath.Join] joins and cleans exactly as [path.Join]. *)

Module filepath.
Definition Join (elem : list string) : string := path.Join elem.
End filepath.

(** ** Go values the store handles *)

(** Go [error] values that the store can tell apart.  Comparison with
    [==] against a sentinel is identity of the error value, so each
    sentinel is a constructor; an error that wraps a sentinel is a
    different value.

    Modelled from the spec: [ErrNotFound] and [StopIteration] are the two
    sentinels of the package ("object not found" and "caller requested
    enumeration stop"), declared outside [gsstore.go]. *)
Inductive error : Type :=
| ErrNotFound                                      (* dstore.ErrNotFound *)
| StopIteration                                    (* dstore.StopIteration *)
| storage_ErrObjectNotExist                        (* storage.ErrObjectNotExist *)
| iterator_Done                                    (* iterator.Done *)
| googleapi_Error (Code : Z) (Message : string)    (* *googleapi.Error *)
| errorString (msg : string)                       (* errors.New(msg) *)
| wrapError (msg : string) (err : error).          (* fmt.Errorf(msg + ": %w", err) *)

(** [http.StatusPreconditionFailed] *)
Definition http_StatusPreconditionFailed : Z := 412.

(** [context.Context], opaque to the store: it is only handed on to the
    client. *)
Definition Context : Type := nat.
Definition context_Background : Context := 0.

(** The fields of [url.URL] the store reads or writes. *)
Record URL : Type := mkURL {
  Scheme : string;
  Host : string;
  Path : string
}.

(** [*url.URL] values live in a heap: a store holds a pointer to its base
    URL, and [SubStore] assigns to the [Path] field of a URL object. *)
Definition ptr : Type := nat.
Definition Heap : Type := list URL.

Definition zeroURL : URL := mkURL "" "" "".

Definition deref (h : Heap) (p : ptr) : URL := nth p h zeroURL.

(** A newly allocated object gets the next free address. *)
Definition alloc (h : Heap) (u : URL) : ptr * Heap :=
  (List.length h, (h ++ [u])%list).

(** [p.Path = v] *)
Fixpoint setPath (h : Heap) (p : ptr) (v : string) : Heap :=
  match h, p with
  | [], _ => []
  | u :: rest, 0 => mkURL (Scheme u) (Host u) v :: rest
  | u :: rest, S p' => u :: setPath rest p' v
  end.

(** ** The storage client, as the store uses it

    The Google Storage SDK is an external collaborator.  Each call of the
    client is modelled by its outcome, as a function of what the store
    passes to it. *)

(** [storage.Conditions] *)
Record Conditions : Type := mkConditions { DoesNotExist : bool }.

(** [client.Bucket(bucket).Object(object)], optionally with [.If(conds)] *)
Record ObjectHandle : Type := mkObjectHandle {
  bucket : string;
  object : string;
  conds : option Conditions
}.

Definition Object (bkt name : string) : ObjectHandle :=
  mkObjectHandle bkt name None.

Definition If (o : ObjectHandle) (c : Conditions) : ObjectHandle :=
  mkObjectHandle (bucket o) (object o) (Some c).

(** [*storage.Writer]: its object, the two attributes the store sets, and
    the bytes written to it so far. *)
Record Writer : Type := mkWriter {
  handle : ObjectHandle;
  ContentType : string;
  CacheControl : string;
  written : string
}.

Definition NewWriter (o : ObjectHandle) : Writer := mkWriter o "" "" "".

(** [io.Reader] / [io.ReadCloser] values, by how they were obtained. *)
Inductive Reader : Type :=
| nilReader                                   (* the nil interface value *)
| callerReader (id : nat)                     (* a stream supplied by the caller *)
| storageReader (o : ObjectHandle)            (* object.NewReader(ctx) *)
| uncompressed (scheme : string) (r : Reader) (* a decompressing reader *)
| wrapReadCloser (r : Reader) (logPath : string).

(** [storage.Query] *)
Record Query : Type := mkQuery {
  Prefix : string;
  StartOffset : string
}.

(** [storage.ObjectAttrs]; the store reads [Name] only. *)
Record ObjectAttrs : Type := mkObjectAttrs { Name : string }.

(** [*storage.ObjectIterator]: the objects still to be returned by
    [Next], then the error [Next] ends with ([iterator.Done] at the normal
    end of the listing). *)
Record ObjectIterator : Type := mkObjectIterator {
  pending : list ObjectAttrs;
  final : error
}.

(** [it.Next()] *)
Definition Next (it : ObjectIterator)
  : option ObjectAttrs * option error * ObjectIterator :=
  match pending it with
  | [] => (None, Some (final it), it)
  | a :: rest => (Some a, None, mkObjectIterator rest (final it))
  end.

(** [*storage.Client] *)
Record Client : Type := mkClient {
  Writer_Close : Context -> Writer -> option error;
  Object_NewReader : Context -> ObjectHandle -> Reader + error;
  Object_Delete : Context -> ObjectHandle -> option error;
  Object_Attrs : Context -> ObjectHandle -> ObjectAttrs + error;
  Bucket_Objects : Context -> string -> Query -> ObjectIterator
}.

(** The listing contract of the backend: the objects of a query have names
    that begin with [Prefix] and are lexicographically equal to or after
    [StartOffset] (the empty offset is below every name). *)
Definition honoursQuery (c : Client) : Prop :=
  forall ctx bkt q a,
    In a (pending (Bucket_Objects c ctx bkt q)) ->
    strings.HasPrefix (Name a) (Prefix q) = true /\
    String.leb (StartOffset q) (Name a) = true.

(** ** The rest of the package and of the process, as the store uses it *)

(** [commonStore] *)
Record commonStore : Type := mkCommonStore {
  compressionType : string;
  extension : string;
  overwrite : bool
}.

(** What [gsstore.go] calls but does not define: [net/url],
    [storage.NewClient], the tracer switch, and the compression helpers of
    [commonStore]. *)
Record Env : Type := mkEnv {
  url_String : URL -> string;
  url_Parse : string -> URL + error;
  storage_NewClient : Context -> Client + error;
  tracer_Enabled : bool;
  compressedCopy : commonStore -> Reader -> Writer -> option error * Writer;
  uncompressedReader : commonStore -> Reader -> Reader * option error
}.

(** Modelled from the spec: [commonStore.pathWithExt], which is not in
    [gsstore.go].  The codec works on "name + extension", and the empty
    extension is the identity. *)
Definition pathWithExt (c : commonStore) (base : string) : string :=
  base ++ extension c.

(** ** Google Storage Store

    The methods of [GSStore] whose behaviour is decided in [gsstore.go].
    [PushLocalFile] and [ListFiles] are left out: they hand over to the
    package helpers [pushLocalFile] and [listFiles].  Debug logging has
    no effect on the results and is not represented. *)

Record GSStore : Type := mkGSStore {
  baseURL : ptr;
  client : Client;
  common : commonStore
}.

Definition NewGSStore (env : Env) (baseURL : ptr)
           (extension compressionType : string) (overwrite : bool)
  : GSStore + error :=
  let ctx := context_Background in
  match storage_NewClient env ctx with
  | inr err => inr err
  | inl client =>
      inl (mkGSStore baseURL client
             (mkCommonStore compressionType extension overwrite))
  end.

Definition SubStore (env : Env) (h : Heap) (s : GSStore) (subFolder : string)
  : (GSStore + error) * Heap :=
  match url_Parse env (url_String env (deref h (baseURL s))) with
  | inr err => (inr (wrapError "gs store parsing base url" err), h)
  | inl parsed =>
      let (url, h1) := alloc h parsed in
      let h2 := setPath h1 url (path.Join [Path (deref h1 url); subFolder]) in
      (NewGSStore env url (extension (common s)) (compressionType (common s))
                  (overwrite (common s)),
       h2)
  end.

Definition BaseURL (s : GSStore) : ptr := baseURL s.

Definition ObjectPath (h : Heap) (s : GSStore) (name : string) : string :=
  path.Join [strings.TrimLeft (Path (deref h (baseURL s))) "/";
             pathWithExt (common s) name].

(** [fmt.Sprintf("%s/%s", a, b)] is [a ++ "/" ++ b]. *)
Definition ObjectURL (env : Env) (h : Heap) (s : GSStore) (name : string)
  : string :=
  strings.TrimRight (url_String env (deref h (baseURL s))) "/" ++ "/"
    ++ strings.TrimLeft (pathWithExt (common s) name) "/".

Definition toBaseName (h : Heap) (s : GSStore) (filename : string) : string :=
  strings.TrimPrefix
    (strings.TrimSuffix filename (pathWithExt (common s) ""))
    (strings.TrimLeft (Path (deref h (baseURL s))) "/" ++ "/").

Definition silencePreconditionError (err : error) : option error :=
  match err with
  | googleapi_Error code _ =>
      if (code =? http_StatusPreconditionFailed)%Z then None else Some err
  | _ => Some err
  end.

(** The first part of [WriteObject]: the object handle, conditional unless
    the store overwrites, and the writer on it with its two attributes. *)
Definition objectWriter (h : Heap) (s : GSStore) (base : string) : Writer :=
  let path := ObjectPath h s base in
  let object := Object (Host (deref h (baseURL s))) path in
  let object :=
    if negb (overwrite (common s))
    then If object (mkConditions true) else object in
  let w := NewWriter object in
  mkWriter (handle w) "application/octet-stream"
           "public, max-age=86400" (written w).

Definition WriteObject (env : Env) (ctx : Context) (h : Heap) (s : GSStore)
           (base : string) (f : Reader) : option error :=
  let w := objectWriter h s base in
  match compressedCopy env (common s) f w with
  | (Some err, _) => Some err
  | (None, w) =>
      match Writer_Close (client s) ctx w with
      | Some err =>
          if overwrite (common s) then Some err
          else silencePreconditionError err
      | None => None
      end
  end.

Definition OpenObject (env : Env) (ctx : Context) (h : Heap) (s : GSStore)
           (name : string) : Reader * option error :=
  let path := ObjectPath h s name in
  match Object_NewReader (client s) ctx
          (Object (Host (deref h (baseURL s))) path) with
  | inr err =>
      match err with
      | storage_ErrObjectNotExist => (nilReader, Some ErrNotFound)
      | _ => (nilReader, Some err)
      end
  | inl reader =>
      let (out, err) := uncompressedReader env (common s) reader in
      let out :=
        if tracer_Enabled env
        then wrapReadCloser out (pathWithExt (common s) name)
        else out in
      (out, err)
  end.

Definition DeleteObject (ctx : Context) (h : Heap) (s : GSStore)
           (base : string) : option error :=
  let path := ObjectPath h s base in
  Object_Delete (client s) ctx (Object (Host (deref h (baseURL s))) path).

Definition FileExists (ctx : Context) (h : Heap) (s : GSStore)
           (base : string) : bool * option error :=
  let path := ObjectPath h s base in
  match Object_Attrs (client s) ctx
          (Object (Host (deref h (baseURL s))) path) with
  | inr err =>
      match err with
      | storage_ErrObjectNotExist => (false, None)
      | _ => (false, Some err)
      end
  | inl _ => (true, None)
  end.

(** *** Enumeration

    The visit callback is a Go closure: it may read and update state of
    the caller, modelled by a state [St] threaded through the calls.  The
    outcome of a walk records, besides the returned error and the final
    caller state, the names the callback was invoked with, in order. *)

Definition visitor (St : Type) : Type := string -> St -> option error * St.

Record WalkResult (St : Type) : Type := mkWalkResult {
  walkErr : option error;
  walkState : St;
  visited : list string
}.
Arguments mkWalkResult {St}.
Arguments walkErr {St}.
Arguments walkState {St}.
Arguments visited {St}.

(** The last byte of a non-empty string: [prefix[len(prefix)-1:] == "/"]. *)
Definition endsWithSlash (p : string) : bool :=
  String.eqb (substring (String.length p - 1) 1 p) "/".

(** The query [WalkFrom] builds before it starts iterating. *)
Definition walkQuery (h : Heap) (s : GSStore) (prefix startingPoint : string)
  : Query :=
  let q := mkQuery "" "" in
  let q := mkQuery (strings.TrimLeft (Path (deref h (baseURL s))) "/" ++ "/")
                   (StartOffset q) in
  let q :=
    if negb (String.eqb prefix "") then
      let q := mkQuery (filepath.Join [Prefix q; prefix]) (StartOffset q) in
      (* join cleans the string and will remove the trailing / in the
         prefix if present; adding it back *)
      if endsWithSlash prefix
      then mkQuery (Prefix q ++ "/") (StartOffset q)
      else q
    else q in
  if negb (String.eqb startingPoint "")
  then mkQuery (Prefix q) (filepath.Join [Prefix q; startingPoint])
  else q.

(** The [for] loop of [WalkFrom], over the objects the iterator still has
    to return: one iteration per call of [it.Next()]. *)
Fixpoint walkLoop {St : Type} (h : Heap) (s : GSStore) (f : visitor St)
         (objs : list ObjectAttrs) (fin : error) (st : St) : WalkResult St :=
  match objs with
  | [] =>
      (* it.Next() returns (nil, fin) *)
      match fin with
      | iterator_Done => mkWalkResult None st []
      | err => mkWalkResult (Some err) st []
      end
  | attrs :: rest =>
      let name := toBaseName h s (Name attrs) in
      match f name st with
      | (Some err, st') =>
          match err with
          | StopIteration => mkWalkResult None st' [name]
          | _ => mkWalkResult (Some err) st' [name]
          end
      | (None, st') =>
          let r := walkLoop h s f rest fin st' in
          mkWalkResult (walkErr r) (walkState r) (name :: visited r)
      end
  end.

Definition WalkFrom {St : Type} (ctx : Context) (h : Heap) (s : GSStore)
           (prefix startingPoint : string) (f : visitor St) (st : St)
  : WalkResult St :=
  let q := walkQuery h s prefix startingPoint in
  let it := Bucket_Objects (client s) ctx (Host (deref h (baseURL s))) q in
  walkLoop h s f (pending it) (final it) st.

Definition Walk {St : Type} (ctx : Context) (h : Heap) (s : GSStore)
           (prefix : string) (f : visitor St) (st : St) : WalkResult St :=
  WalkFrom ctx h s prefix "" f st.

(** The callback returns [nil] on each of [names], in order: the caller
    state after the last call. *)
Fixpoint visitAll {St : Type} (f : visitor St) (names : list string) (st : St)
  : option St :=
  match names with
  | [] => Some st
  | n :: rest =>
      match f n st with
      | (None, st') => visitAll f rest st'
      | (Some _, _) => None
      end
  end.

(** A plain path segment: not empty, no separator inside, and neither
    ["."] nor [".."].  Path cleaning has nothing to do on a sequence of
    plain segments separated by single separators. *)
Fixpoint noSlash (seg : string) : bool :=
  match seg with
  | EmptyString => true
  | String c rest => negb (path.isSlash c) && noSlash rest
  end.

Definition plainSegment (seg : string) : bool :=
  negb (String.eqb seg "") && noSlash seg &&
  negb (String.eqb seg ".") && negb (String.eqb seg "..").

(** The whole loop of [path.Clean] on the unread input [rest]: as many
    iterations as there are unread bytes. *)
Definition cleanAll (rooted : bool) (rest : string) (out : list ascii)
           (dotdot : nat) : list ascii :=
  path.cleanLoop (String.length rest) rooted rest out dotdot.

(** The buffer after "add slash if needed". *)
Definition withSlash (rooted : bool) (out : list ascii) : list ascii :=
  if (rooted && negb (List.length out =? 1)%nat) ||
     (negb rooted && negb (List.length out =? 0)%nat)
  then (out ++ [path.slash])%list else out.

(** No two separators in a row in the buffer. *)
Fixpoint noDoubleSlash (l : list ascii) : bool :=
  match l with
  | [] => true
  | a :: tl =>
      negb (path.isSlash a &&
            match tl with
            | b :: _ => path.isSlash b
            | [] => false
            end)
      && noDoubleSlash tl
  end.

(** The buffer ends with a separator. *)
Definition lastIsSlash (l : list ascii) : bool :=
  path.isSlash (last l path.dot).

(** What the loop of [path.Clean] keeps true of its buffer [out] and of
    the index [dotdot]: the index is inside the buffer; the buffer has no
    doubled separator; it ends with a separator only as the root of a
    rooted path; and the same holds of its part below [dotdot]. *)
Definition cleanInv (rooted : bool) (out : list ascii) (dotdot : nat) : Prop :=
  dotdot <= List.length out /\
  noDoubleSlash out = true /\
  (lastIsSlash out = true -> out = [path.slash] /\ rooted = true) /\
  (lastIsSlash (firstn dotdot out) = true -> rooted = true /\ dotdot = 1).

(** A run of [k] separators. *)
Fixpoint slashes (k : nat) : string :=
  match k with
  | 0 => EmptyString
  | S k' => String path.slash (slashes k')
  end.

(** A plain path: plain segments joined by single separators. *)
Definition plainPath (p : string) : Prop :=
  exists segs, segs <> [] /\ forallb plainSegment segs = true /\
               p = strings.Join segs "/".

(** ** A bucket in memory, and a process environment, for the examples *)

Module Sample.

(** Does [key] answer the query [q]? *)
Definition matches (q : Query) (key : string) : bool :=
  strings.HasPrefix key (Prefix q) && String.leb (StartOffset q) key.

Definition holds (keys : list string) (o : ObjectHandle) : bool :=
  existsb (String.eqb (object o)) keys.

(** A client on a bucket that holds [keys] (in key order). *)
Definition bucketClient (keys : list string) : Client :=
  mkClient
    (fun _ w =>
       match conds (handle w) with
       | Some (mkConditions true) =>
           if holds keys (handle w)
           then Some (googleapi_Error 412 "conditionNotMet")
           else None
       | _ => None
       end)
    (fun _ o =>
       if holds keys o then inl (storageReader o)
       else inr storage_ErrObjectNotExist)
    (fun _ o =>
       if holds keys o then None else Some storage_ErrObjectNotExist)
    (fun _ o =>
       if holds keys o then inl (mkObjectAttrs (object o))
       else inr storage_ErrObjectNotExist)
    (fun _ _ q =>
       mkObjectIterator (map mkObjectAttrs (filter (matches q) keys))
                        iterator_Done).

(** A printer and a parser for URLs of the shape [scheme://host/path]. *)
Definition printURL (u : URL) : string :=
  Scheme u ++ "://" ++ Host u ++ Path u.

Definition parseURL (s : string) : URL + error :=
  match index 0 "://" s with
  | None => inr (errorString "missing protocol scheme")
  | Some i =>
      let rest := substring (i + 3) (String.length s - (i + 3)) s in
      match index 0 "/" rest with
      | None => inl (mkURL (substring 0 i s) rest "")
      | Some j =>
          inl (mkURL (substring 0 i s) (substring 0 j rest)
                     (substring j (String.length rest - j) rest))
      end
  end.

Definition env (keys : list string) : Env :=
  mkEnv printURL parseURL (fun _ => inl (bucketClient keys)) false
        (fun _ _ w => (None, w))
        (fun c r => (uncompressed (compressionType c) r, None)).

(** One URL object, [gs://bkt/root], and a store on it. *)
Definition heap : Heap := [mkURL "gs" "bkt" "/root"].

Definition store (keys : list string) (ext : string) (overwrite : bool)
  : GSStore :=
  mkGSStore 0 (bucketClient keys) (mkCommonStore "" ext overwrite).

(** Ten objects under [root/], in key order. *)
Definition tenKeys : list string :=
  ["root/01.txt"; "root/02.txt"; "root/03.txt"; "root/04.txt";
   "root/05.txt"; "root/06.txt"; "root/07.txt"; "root/08.txt";
   "root/09.txt"; "root/10.txt"].

(** A callback that counts its calls and asks to stop at the [n]th. *)
Definition stopAt (n : nat) : visitor nat :=
  fun _ calls =>
    if (S calls =? n)%nat then (Some StopIteration, S calls)
    else (None, S calls).

(** A callback that counts its calls and fails with [e] at the [n]th. *)
Definition failAt (n : nat) (e : error) : visitor nat :=
  fun _ calls =>
    if (S calls =? n)%nat then (Some e, S calls) else (None, S calls).

(** A callback that only counts. *)
Definition count : visitor nat := fun _ calls => (None, S calls).

End Sample.

(** * Properties *)

(** ** The library functions on concrete inputs *)

Example Clean_ex1 : path.Clean "a//c" = "a/c". Proof. reflexivity. Qed.
Example Clean_ex2 : path.Clean "a/c/." = "a/c". Proof. reflexivity. Qed.
Example Clean_ex3 : path.Clean "a/c/b/.." = "a/c". Proof. reflexivity. Qed.
Example Clean_ex4 : path.Clean "/../a/c" = "/a/c". Proof. reflexivity. Qed.
Example Clean_ex5 : path.Clean "/../a/b/../././/c" = "/a/c". Proof. reflexivity. Qed.
Example Clean_ex6 : path.Clean "" = ".". Proof. reflexivity. Qed.
Example Clean_ex7 : path.Clean "../../abc/.." = "../..". Proof. reflexivity. Qed.
Example Clean_ex8 : path.Clean "abc/def/../../.." = "..". Proof. reflexivity. Qed.
Example Clean_ex9 : path.Clean "abc/./../def" = "def". Proof. reflexivity. Qed.
Example Clean_ex10 : path.Clean "abc//./../def" = "def". Proof. reflexivity. Qed.
Example Clean_ex11 : path.Clean "abc/../../././../def" = "../../def". Proof. reflexivity. Qed.
Example Clean_ex12 : path.Clean "/" = "/". Proof. reflexivity. Qed.
Example Clean_ex13 : path.Clean "abc/" = "abc". Proof. reflexivity. Qed.
Example Clean_ex14 : path.Clean "/abc/def/../../.." = "/". Proof. reflexivity. Qed.
Example Clean_ex15 : path.Clean "abc/def/ghi/../jkl" = "abc/def/jkl". Proof. reflexivity. Qed.
Example Clean_ex16 : path.Clean "a/.." = ".". Proof. reflexivity. Qed.
Example Join_ex1 : path.Join ["a"; "b"; "c"] = "a/b/c". Proof. reflexivity. Qed.
Example Join_ex2 : path.Join ["a"; ""] = "a". Proof. reflexivity. Qed.
Example Join_ex3 : path.Join [""; "a"] = "a". Proof. reflexivity. Qed.
Example Join_ex4 : path.Join [""; ""] = "". Proof. reflexivity. Qed.
Example Join_ex5 : path.Join ["a/b"; "../../../xyz"] = "../xyz". Proof. reflexivity. Qed.

Example parse_print_ex :
  Sample.parseURL (Sample.printURL (mkURL "gs" "bkt" "/root"))
  = inl (mkURL "gs" "bkt" "/root").
Proof. reflexivity. Qed.

Example walk_all_ex :
  visited (Walk 0 Sample.heap (Sample.store Sample.tenKeys ".txt" false)
                "" Sample.count 0)
  = ["01"; "02"; "03"; "04"; "05"; "06"; "07"; "08"; "09"; "10"].
Proof. reflexivity. Qed.

(** ** Strings: append, length, substring *)

Section StringFacts.

Lemma append_nil_r (a : string) : a ++ "" = a.
Proof. induction a as [|c a IH]; simpl; [reflexivity | now rewrite IH]. Qed.

Lemma append_assoc (a b c : string) : (a ++ b) ++ c = a ++ (b ++ c).
Proof. induction a as [|x a IH]; simpl; [reflexivity | now rewrite IH]. Qed.

Lemma length_append (a b : string) :
  String.length (a ++ b) = String.length a + String.length b.
Proof. induction a as [|x a IH]; simpl; [reflexivity | now rewrite IH]. Qed.

Lemma substring_all (a : string) : substring 0 (String.length a) a = a.
Proof. induction a as [|x a IH]; simpl; [reflexivity | now rewrite IH]. Qed.

Lemma substring_append_l (a b : string) :
  substring 0 (String.length a) (a ++ b) = a.
Proof.
  induction a as [|x a IH]; simpl.
  - destruct b; reflexivity.
  - now rewrite IH.
Qed.

Lemma substring_append_r (a b : string) (n : nat) :
  substring (String.length a) n (a ++ b) = substring 0 n b.
Proof. induction a as [|x a IH]; simpl; [reflexivity | exact IH]. Qed.

Lemma prefix_append (a b : string) : String.prefix a (a ++ b) = true.
Proof.
  induction a as [|x a IH]; simpl.
  - destruct b; reflexivity.
  - destruct (ascii_dec x x) as [_|N]; [exact IH | now destruct N].
Qed.

Lemma HasSuffix_append (a suf : string) :
  strings.HasSuffix (a ++ suf) suf = true.
Proof.
  unfold strings.HasSuffix. rewrite length_append.
  replace (String.length a + String.length suf - String.length suf)
    with (String.length a) by lia.
  rewrite substring_append_r, substring_all, String.eqb_refl.
  rewrite andb_true_r. apply Nat.leb_le. lia.
Qed.

Lemma TrimSuffix_append (a suf : string) :
  strings.TrimSuffix (a ++ suf) suf = a.
Proof.
  unfold strings.TrimSuffix. rewrite HasSuffix_append, length_append.
  replace (String.length a + String.length suf - String.length suf)
    with (String.length a) by lia.
  apply substring_append_l.
Qed.

Lemma TrimPrefix_append (pre a : string) :
  strings.TrimPrefix (pre ++ a) pre = a.
Proof.
  unfold strings.TrimPrefix, strings.HasPrefix.
  rewrite prefix_append, length_append.
  replace (String.length pre + String.length a - String.length pre)
    with (String.length a) by lia.
  rewrite substring_append_r. apply substring_all.
Qed.

Lemma leb_empty (k : string) : String.leb "" k = true.
Proof. destruct k; reflexivity. Qed.

End StringFacts.

(** ** Path/name codec *)

Section Codec.

Variable h : Heap.
Variable s : GSStore.

(** The base path of the store with its leading separators stripped. *)
Let base : string := strings.TrimLeft (Path (deref h (baseURL s))) "/".

(** [toBaseName] undoes the plain concatenation base + "/" + name +
    extension. *)
Lemma toBaseName_concat (n : string) :
  toBaseName h s (base ++ "/" ++ pathWithExt (common s) n) = n.
Proof.
  unfold toBaseName, pathWithExt. simpl.
  fold base.
  replace (base ++ String "/" (n ++ extension (common s)))
    with ((base ++ "/" ++ n) ++ extension (common s)).
  - rewrite TrimSuffix_append.
    rewrite <- append_assoc. apply TrimPrefix_append.
  - rewrite append_assoc. reflexivity.
Qed.

End Codec.

(** C2 as stated fails: with base [gs://bkt/root] and the empty extension,
    the key of the name ["a//b"] is ["root/a/b"]; it lies under the base
    location and carries the extension, yet it translates back to
    ["a/b"]. *)
Lemma codec_roundtrip_counterexample :
  let h := Sample.heap in
  let s := Sample.store [] "" false in
  let n := "a//b" in
  let key := ObjectPath h s n in
  strings.HasPrefix key
    (strings.TrimLeft (Path (deref h (baseURL s))) "/" ++ "/") = true /\
  strings.HasSuffix key (pathWithExt (common s) "") = true /\
  toBaseName h s key <> n.
Proof.
  cbv zeta. split; [reflexivity | split; [reflexivity |]].
  vm_compute. discriminate.
Qed.

(** The same with an extension and a ["."] segment. *)
Example codec_roundtrip_dot_ex :
  ObjectPath Sample.heap (Sample.store [] ".txt" false) "a/./b"
  = "root/a/b.txt" /\
  toBaseName Sample.heap (Sample.store [] ".txt" false) "root/a/b.txt"
  = "a/b".
Proof. split; reflexivity. Qed.

(** ** [path.Clean] on paths that are already clean *)

Section CleanPlain.

Import path.

(** The loop never needs more iterations than there are unread bytes. *)
Lemma copyElement_length (rest : string) :
  String.length (snd (copyElement rest)) <= String.length rest.
Proof.
  induction rest as [|c rest IH]; simpl; [lia |].
  destruct (isSlash c); simpl; [lia |].
  destruct (copyElement rest) as [el tl]; simpl in *. lia.
Qed.

Lemma cleanLoop_fuel (fuel : nat) :
  forall rooted rest out dotdot,
    String.length rest <= fuel ->
    cleanLoop fuel rooted rest out dotdot
    = cleanLoop (String.length rest) rooted rest out dotdot.
Proof.
  induction fuel as [fuel IH] using lt_wf_ind.
  intros rooted rest out dotdot Hlen.
  destruct rest as [|c rest1].
  - destruct fuel; reflexivity.
  - destruct fuel as [|fuel]; [simpl in Hlen; lia |].
    simpl in Hlen.
    assert (Hstep : forall r o d, String.length r <= String.length rest1 ->
              cleanLoop fuel rooted r o d
              = cleanLoop (String.length rest1) rooted r o d).
    { intros r o d Hr.
      rewrite (IH fuel) by lia.
      symmetry. apply IH; lia. }
    cbn [String.length cleanLoop].
    destruct (isSlash c) eqn:Hs; [apply Hstep; lia |].
    destruct (isDot c && atEndOrSlash rest1); [apply Hstep; lia |].
    destruct (isDot c && _).
    + assert (Hr2 : String.length
                match rest1 with
                | "" => ""
                | String _ r2 => r2
                end <= String.length rest1)
        by (destruct rest1; simpl; lia).
      destruct (dotdot <? List.length out)%nat; [apply Hstep; exact Hr2 |].
      destruct (negb rooted); apply Hstep; exact Hr2.
    + pose proof (copyElement_length rest1) as Hc.
      simpl copyElement. rewrite Hs.
      destruct (copyElement rest1) as [el tl]. simpl in Hc.
      apply Hstep. lia.
Qed.

Lemma copyElement_noSlash (seg tl : string) :
  noSlash seg = true -> atEndOrSlash tl = true ->
  copyElement (seg ++ tl) = (list_ascii_of_string seg, tl).
Proof.
  intros Hseg Htl. induction seg as [|c seg IH]; simpl in *.
  - destruct tl as [|d tl]; simpl in *; [reflexivity | now rewrite Htl].
  - apply andb_true_iff in Hseg as [Hc Hseg].
    apply negb_true_iff in Hc. rewrite Hc, (IH Hseg). reflexivity.
Qed.

Lemma plainSegment_inv (seg : string) :
  plainSegment seg = true ->
  seg <> "" /\ noSlash seg = true /\ seg <> "." /\ seg <> "..".
Proof.
  unfold plainSegment. intros Hp.
  apply andb_true_iff in Hp as [Hp H3].
  apply andb_true_iff in Hp as [Hp H2].
  apply andb_true_iff in Hp as [H0 H1].
  apply negb_true_iff, String.eqb_neq in H0, H2, H3.
  repeat split; assumption.
Qed.

Lemma noSlash_cons (c : ascii) (seg : string) :
  noSlash (String c seg) = true -> isSlash c = false /\ noSlash seg = true.
Proof.
  simpl. intros H. apply andb_true_iff in H as [H1 H2].
  apply negb_true_iff in H1. split; assumption.
Qed.

Lemma isDot_eq (c : ascii) : isDot c = true -> c = dot.
Proof. apply Ascii.eqb_eq. Qed.

(** After a plain segment's first byte, the input is not at an end of
    element unless the segment is that single byte. *)
Lemma atEndOrSlash_inside (seg tl : string) :
  noSlash seg = true -> atEndOrSlash tl = true ->
  atEndOrSlash (seg ++ tl) = true -> seg = "".
Proof.
  intros Hn _ H. destruct seg as [|d seg]; [reflexivity |].
  apply noSlash_cons in Hn as [Hd _]. simpl in H. congruence.
Qed.

(** One iteration on a plain segment takes the default branch of the
    switch: a separator if the buffer is not empty, then the segment. *)
Lemma cleanLoop_plain_step (fuel : nat) (seg tl : string)
      (out : list ascii) (dotdot : nat) :
  plainSegment seg = true -> atEndOrSlash tl = true ->
  cleanLoop (S fuel) false (seg ++ tl) out dotdot
  = cleanLoop fuel false tl
      ((if (List.length out =? 0)%nat then out else out ++ [slash])
         ++ list_ascii_of_string seg)%list dotdot.
Proof.
  intros Hp Htl.
  apply plainSegment_inv in Hp as (Hne & Hns & Hdot1 & Hdot2).
  pose proof (copyElement_noSlash seg tl Hns Htl) as Hcopy.
  destruct seg as [|c seg]; [congruence |].
  apply noSlash_cons in Hns as [Hc Hns].
  change (String c seg ++ tl) with (String c (seg ++ tl)) in *.
  cbn [cleanLoop]. rewrite Hc.
  assert (Hdot : isDot c && atEndOrSlash (seg ++ tl) = false).
  { apply andb_false_iff.
    destruct (isDot c) eqn:Hd; [right | now left].
    apply isDot_eq in Hd. subst c.
    destruct (atEndOrSlash (seg ++ tl)) eqn:He; [|reflexivity].
    apply atEndOrSlash_inside in He; try assumption.
    subst seg. now destruct Hdot1. }
  rewrite Hdot.
  assert (Hdd : isDot c &&
                match seg ++ tl with
                | "" => false
                | String c1 rest2 => isDot c1 && atEndOrSlash rest2
                end = false).
  { apply andb_false_iff.
    destruct (isDot c) eqn:Hd; [right | now left].
    apply isDot_eq in Hd. subst c.
    destruct seg as [|d seg].
    - now destruct Hdot1.
    - change (String d seg ++ tl) with (String d (seg ++ tl)).
      apply noSlash_cons in Hns as [_ Hns].
      apply andb_false_iff.
      destruct (isDot d) eqn:Hd; [right | now left].
      apply isDot_eq in Hd. subst d.
      destruct (atEndOrSlash (seg ++ tl)) eqn:He; [|reflexivity].
      apply atEndOrSlash_inside in He; try assumption.
      subst seg. now destruct Hdot2. }
  rewrite Hdd, Hcopy. simpl.
  destruct (List.length out =? 0)%nat; reflexivity.
Qed.

(** The separator-joined plain segments, with a separator in front when
    the buffer already holds something. *)
Lemma cleanLoop_plain (segs : list string) :
  forall fuel out dotdot,
    forallb plainSegment segs = true ->
    String.length (String.concat "/" segs) <= fuel ->
    cleanLoop fuel false (String.concat "/" segs) out dotdot
    = match segs with
      | [] => out
      | _ =>
          ((if (List.length out =? 0)%nat then out else out ++ [slash])
             ++ list_ascii_of_string (String.concat "/" segs))%list
      end.
Proof.
  induction segs as [|seg segs IH]; intros fuel out dotdot Hp Hlen.
  - destruct fuel; reflexivity.
  - simpl in Hp. apply andb_true_iff in Hp as [Hseg Hp].
    pose proof (plainSegment_inv seg Hseg) as (Hne & _).
    destruct segs as [|seg2 segs].
    + cbn [String.concat] in *.
      destruct fuel as [|fuel].
      { destruct seg; [congruence | simpl in Hlen; lia]. }
      rewrite <- (append_nil_r seg) at 1.
      rewrite cleanLoop_plain_step by (assumption || reflexivity).
      destruct fuel; reflexivity.
    + change (String.concat "/" (seg :: seg2 :: segs))
        with (seg ++ "/" ++ String.concat "/" (seg2 :: segs)) in *.
      set (more := String.concat "/" (seg2 :: segs)) in *.
      rewrite !length_append in Hlen. simpl in Hlen.
      assert (0 < String.length seg) by (destruct seg; [congruence | simpl; lia]).
      destruct fuel as [|[|fuel]]; try lia.
      rewrite cleanLoop_plain_step by (assumption || reflexivity).
      change ("/" ++ more) with (String slash more).
      cbn [cleanLoop]. change (isSlash slash) with true. cbv iota.
      rewrite (IH fuel) by (assumption || lia).
      assert (Hlen0 : forall l : list ascii,
                 (List.length (l ++ list_ascii_of_string seg) =? 0)%nat = false).
      { intros l. apply Nat.eqb_neq. rewrite length_app.
        destruct seg; [congruence | simpl; lia]. }
      rewrite Hlen0.
      assert (Hl : list_ascii_of_string (seg ++ String slash more)
                   = (list_ascii_of_string seg ++ slash
                        :: list_ascii_of_string more)%list).
      { clear. induction seg as [|c seg IHs]; simpl; [reflexivity |].
        now rewrite IHs. }
      rewrite Hl, <- !app_assoc. reflexivity.
Qed.

(** [path.Clean] leaves a non-empty sequence of plain segments joined by
    single separators as it is. *)
Lemma Clean_plain (segs : list string) :
  segs <> [] -> forallb plainSegment segs = true ->
  Clean (strings.Join segs "/") = strings.Join segs "/".
Proof.
  unfold strings.Join. intros Hne Hp.
  pose proof (cleanLoop_plain segs (String.length (String.concat "/" segs))
                [] 0 Hp (le_n _)) as Hloop.
  destruct segs as [|seg segs]; [congruence |].
  assert (Hfirst : exists c rest,
             String.concat "/" (seg :: segs) = String c rest /\
             isSlash c = false).
  { simpl in Hp. apply andb_true_iff in Hp as [Hseg _].
    apply plainSegment_inv in Hseg as (Hn & Hns & _).
    destruct seg as [|c seg]; [congruence |].
    apply noSlash_cons in Hns as [Hc _].
    destruct segs; simpl; eauto. }
  destruct Hfirst as (c & rest & Heq & Hc).
  rewrite Heq in *. unfold Clean. rewrite Hc, Hloop.
  simpl. apply f_equal, string_of_list_ascii_of_string.
Qed.

End CleanPlain.

(** ** The codec on plain names *)

Section CodecPlain.

Lemma concat_app (sep : string) (xs ys : list string) :
  xs <> [] -> ys <> [] ->
  String.concat sep (xs ++ ys)
  = String.concat sep xs ++ sep ++ String.concat sep ys.
Proof.
  intros Hx Hy. induction xs as [|x xs IH]; [congruence |].
  destruct xs as [|x2 xs].
  - destruct ys; [congruence | reflexivity].
  - change (String.concat sep ((x :: x2 :: xs) ++ ys))
      with (x ++ sep ++ String.concat sep ((x2 :: xs) ++ ys)).
    rewrite IH by discriminate.
    change (String.concat sep (x :: x2 :: xs))
      with (x ++ sep ++ String.concat sep (x2 :: xs)).
    now rewrite !append_assoc.
Qed.

Lemma concat_plain_nonempty (segs : list string) :
  segs <> [] -> forallb plainSegment segs = true ->
  String.concat "/" segs <> "".
Proof.
  intros Hne Hp. destruct segs as [|seg segs]; [congruence |].
  simpl in Hp. apply andb_true_iff in Hp as [Hseg _].
  apply plainSegment_inv in Hseg as (Hn & _).
  destruct seg; [congruence |]. destruct segs; discriminate.
Qed.

Variable h : Heap.
Variable s : GSStore.

(** When the stripped base path and name + extension are both sequences
    of plain segments, the key is their plain concatenation. *)
Lemma ObjectPath_plain (n : string) (bsegs nsegs : list string) :
  bsegs <> [] -> forallb plainSegment bsegs = true ->
  nsegs <> [] -> forallb plainSegment nsegs = true ->
  strings.TrimLeft (Path (deref h (baseURL s))) "/" = strings.Join bsegs "/" ->
  pathWithExt (common s) n = strings.Join nsegs "/" ->
  ObjectPath h s n
  = strings.TrimLeft (Path (deref h (baseURL s))) "/" ++ "/"
      ++ pathWithExt (common s) n.
Proof.
  intros Hb Hbp Hn Hnp Hbase Hname.
  unfold ObjectPath. rewrite Hbase, Hname. unfold strings.Join.
  pose proof (concat_plain_nonempty bsegs Hb Hbp) as Hne.
  cbn [path.Join]. apply String.eqb_neq in Hne. rewrite Hne.
  unfold strings.Join. cbn [String.concat].
  rewrite <- concat_app by assumption.
  apply (Clean_plain (bsegs ++ nsegs)).
  - destruct bsegs; [congruence | discriminate].
  - rewrite forallb_app, Hbp, Hnp. reflexivity.
Qed.

(** The round trip on plain names: every name whose key needs no
    cleaning is recovered from its key. *)
Lemma toBaseName_ObjectPath_plain (n : string) (bsegs nsegs : list string) :
  bsegs <> [] -> forallb plainSegment bsegs = true ->
  nsegs <> [] -> forallb plainSegment nsegs = true ->
  strings.TrimLeft (Path (deref h (baseURL s))) "/" = strings.Join bsegs "/" ->
  pathWithExt (common s) n = strings.Join nsegs "/" ->
  toBaseName h s (ObjectPath h s n) = n.
Proof.
  intros Hb Hbp Hn Hnp Hbase Hname.
  rewrite (ObjectPath_plain n bsegs nsegs Hb Hbp Hn Hnp Hbase Hname).
  apply toBaseName_concat.
Qed.

End CodecPlain.

(** ** Conditional-write policy *)

Section WritePolicy.

Variable env : Env.
Variable ctx : Context.
Variable h : Heap.
Variable s : GSStore.
Variable base : string.
Variable f : Reader.

(** What the copy into the writer and the close of the writer report. *)
Let copied := compressedCopy env (common s) f (objectWriter h s base).
Let closed := Writer_Close (client s) ctx (snd copied).

Lemma silencePreconditionError_412 (msg : string) :
  silencePreconditionError (googleapi_Error 412 msg) = None.
Proof. reflexivity. Qed.

Lemma silencePreconditionError_other (err : error) :
  (forall msg, err <> googleapi_Error 412 msg) ->
  silencePreconditionError err = Some err.
Proof.
  intros Hne. destruct err; try reflexivity.
  simpl. destruct (Code =? http_StatusPreconditionFailed)%Z eqn:Hc;
    [|reflexivity].
  apply Z.eqb_eq in Hc. subst Code. now destruct (Hne Message).
Qed.

(** C1: with [overwrite = false], a close of the backend writer that
    fails with a [googleapi.Error] of status 412 makes [WriteObject]
    return [nil]; any other error of the close, every error of the close
    when [overwrite = true], and every error of the copy, is returned
    unchanged. *)
Theorem WriteObject_precondition_policy :
  (overwrite (common s) = false -> fst copied = None ->
   (exists msg, closed = Some (googleapi_Error 412 msg)) ->
   WriteObject env ctx h s base f = None) /\
  (forall err,
      fst copied = None -> closed = Some err ->
      overwrite (common s) = true \/
      (forall msg, err <> googleapi_Error 412 msg) ->
      WriteObject env ctx h s base f = Some err) /\
  (forall err,
      fst copied = Some err ->
      WriteObject env ctx h s base f = Some err).
Proof.
  unfold WriteObject. subst closed copied.
  destruct (compressedCopy env (common s) f (objectWriter h s base))
    as [[cerr|] w]; simpl.
  - repeat split; intros; congruence.
  - split; [|split].
    + intros Hov _ [msg Hclose]. rewrite Hclose, Hov. reflexivity.
    + intros err _ Hclose Hcase. rewrite Hclose.
      destruct (overwrite (common s)) eqn:Hov; [reflexivity |].
      destruct Hcase as [Hcase|Hcase]; [discriminate |].
      now apply silencePreconditionError_other.
    + intros err Habs. discriminate.
Qed.

(** The write is conditional on absence exactly when the store does not
    overwrite. *)
Lemma objectWriter_condition :
  conds (handle (objectWriter h s base))
  = if overwrite (common s) then None else Some (mkConditions true).
Proof. unfold objectWriter. destruct (overwrite (common s)); reflexivity. Qed.

End WritePolicy.

(** A second write-once write of ["a"] to a bucket that holds its key
    meets status 412 at the close and succeeds. *)
Lemma WriteObject_precondition_policy_witness :
  WriteObject (Sample.env ["root/a.txt"]) 0 Sample.heap
    (Sample.store ["root/a.txt"] ".txt" false) "a" (callerReader 0) = None.
Proof.
  apply (proj1 (WriteObject_precondition_policy (Sample.env ["root/a.txt"]) 0
                  Sample.heap (Sample.store ["root/a.txt"] ".txt" false)
                  "a" (callerReader 0))).
  - reflexivity.
  - reflexivity.
  - exists "conditionNotMet". reflexivity.
Defined.

(** ** Open, exists, delete *)

Section ObjectErrors.

Variable env : Env.
Variable ctx : Context.
Variable h : Heap.
Variable s : GSStore.
Variable name : string.

(** The object handle every operation on [name] addresses. *)
Let target : ObjectHandle :=
  Object (Host (deref h (baseURL s))) (ObjectPath h s name).

(** C6: when the backend reports that the object does not exist,
    [OpenObject] fails with [ErrNotFound]; any other error of opening
    the reader is returned as it is. *)
Theorem OpenObject_not_found :
  (Object_NewReader (client s) ctx target = inr storage_ErrObjectNotExist ->
   OpenObject env ctx h s name = (nilReader, Some ErrNotFound)) /\
  (forall err,
      Object_NewReader (client s) ctx target = inr err ->
      err <> storage_ErrObjectNotExist ->
      OpenObject env ctx h s name = (nilReader, Some err)).
Proof.
  unfold OpenObject. fold target. split.
  - intros ->. reflexivity.
  - intros err -> Hne. destruct err; congruence.
Qed.

(** C7: [FileExists] returns [(false, nil)] when the backend reports
    that the object does not exist, [(true, nil)] when the metadata
    probe succeeds, and the error itself for any other backend error. *)
Theorem FileExists_cases :
  (Object_Attrs (client s) ctx target = inr storage_ErrObjectNotExist ->
   FileExists ctx h s name = (false, None)) /\
  (forall attrs,
      Object_Attrs (client s) ctx target = inl attrs ->
      FileExists ctx h s name = (true, None)) /\
  (forall err,
      Object_Attrs (client s) ctx target = inr err ->
      err <> storage_ErrObjectNotExist ->
      FileExists ctx h s name = (false, Some err)).
Proof.
  unfold FileExists. fold target. repeat split.
  - intros ->. reflexivity.
  - intros attrs ->. reflexivity.
  - intros err -> Hne. destruct err; congruence.
Qed.

(** C8: [DeleteObject] returns what the backend's delete returns; in
    particular the backend's object-not-exist error reaches the
    caller. *)
Theorem DeleteObject_forwards :
  DeleteObject ctx h s name = Object_Delete (client s) ctx target /\
  (Object_Delete (client s) ctx target = Some storage_ErrObjectNotExist ->
   DeleteObject ctx h s name = Some storage_ErrObjectNotExist).
Proof.
  unfold DeleteObject. fold target. split; [reflexivity | intros ->; reflexivity].
Qed.

End ObjectErrors.

Lemma OpenObject_not_found_witness :
  OpenObject (Sample.env []) 0 Sample.heap (Sample.store [] ".txt" false) "a"
  = (nilReader, Some ErrNotFound).
Proof.
  apply (proj1 (OpenObject_not_found (Sample.env []) 0 Sample.heap
                  (Sample.store [] ".txt" false) "a")).
  reflexivity.
Defined.

Lemma FileExists_cases_witness :
  FileExists 0 Sample.heap (Sample.store [] ".txt" false) "a" = (false, None).
Proof.
  apply (proj1 (FileExists_cases 0 Sample.heap
                  (Sample.store [] ".txt" false) "a")).
  reflexivity.
Defined.

Lemma DeleteObject_forwards_witness :
  DeleteObject 0 Sample.heap (Sample.store [] ".txt" false) "a"
  = Some storage_ErrObjectNotExist.
Proof.
  apply (proj2 (DeleteObject_forwards 0 Sample.heap
                  (Sample.store [] ".txt" false) "a")).
  reflexivity.
Defined.

(** ** Enumeration engine *)

Section Enumeration.

Context {St : Type}.
Variable ctx : Context.
Variable h : Heap.
Variable s : GSStore.

(** The logical name of a listed object. *)
Let nameOf (a : ObjectAttrs) : string := toBaseName h s (Name a).

(** Every name the callback sees is the name of a listed object. *)
Lemma walkLoop_visited (f : visitor St) (fin : error) (objs : list ObjectAttrs) :
  forall st n,
    In n (visited (walkLoop h s f objs fin st)) ->
    exists a, In a objs /\ n = nameOf a.
Proof.
  induction objs as [|a objs IH]; intros st n Hin.
  - simpl in Hin. destruct fin; simpl in Hin; contradiction.
  - simpl in Hin. destruct (f (toBaseName h s (Name a)) st) as [[err|] st'].
    + assert (Hv : visited
                     match err with
                     | StopIteration =>
                         mkWalkResult None st' [toBaseName h s (Name a)]
                     | _ => mkWalkResult (Some err) st'
                                         [toBaseName h s (Name a)]
                     end = [toBaseName h s (Name a)])
        by (destruct err; reflexivity).
      rewrite Hv in Hin. destruct Hin as [<-|[]].
      exists a. split; [now left | reflexivity].
    + simpl in Hin. destruct Hin as [<-|Hin].
      * exists a. split; [now left | reflexivity].
      * destruct (IH _ _ Hin) as (b & Hb & ->).
        exists b. split; [now right | reflexivity].
Qed.

(** The loop up to the first call of the callback that returns an
    error: the objects after it are not visited. *)
Lemma walkLoop_first_error (f : visitor St) (fin : error)
      (before : list ObjectAttrs) :
  forall (a : ObjectAttrs) (after : list ObjectAttrs) st st1 st2 err,
    visitAll f (map nameOf before) st = Some st1 ->
    f (nameOf a) st1 = (Some err, st2) ->
    walkLoop h s f (before ++ a :: after) fin st
    = mkWalkResult
        match err with StopIteration => None | _ => Some err end
        st2 (map nameOf before ++ [nameOf a]).
Proof.
  induction before as [|b before IH];
    intros a after st st1 st2 err Hall Herr.
  - simpl in Hall. injection Hall as ->.
    simpl. fold (nameOf a). rewrite Herr. destruct err; reflexivity.
  - simpl in Hall. simpl. fold (nameOf b).
    destruct (f (nameOf b) st) as [[e|] st'] eqn:Hb; [discriminate |].
    rewrite (IH a after st' st1 st2 err Hall Herr). reflexivity.
Qed.

(** A walk whose callback never returns an error visits every listed
    object and ends with the iterator's final error, [iterator.Done]
    being success. *)
Lemma walkLoop_all (f : visitor St) (fin : error) (objs : list ObjectAttrs) :
  forall st st1,
    visitAll f (map nameOf objs) st = Some st1 ->
    walkLoop h s f objs fin st
    = mkWalkResult
        match fin with iterator_Done => None | _ => Some fin end
        st1 (map nameOf objs).
Proof.
  induction objs as [|a objs IH]; intros st st1 Hall.
  - simpl in Hall. injection Hall as ->. simpl. destruct fin; reflexivity.
  - simpl in Hall. simpl. fold (nameOf a).
    destruct (f (nameOf a) st) as [[e|] st'] eqn:Ha; [discriminate |].
    rewrite (IH st' st1 Hall). reflexivity.
Qed.

(** One iteration of the loop is one call of [it.Next()]. *)
Lemma walkLoop_Next (f : visitor St) (it : ObjectIterator) (st : St) :
  walkLoop h s f (pending it) (final it) st
  = match Next it with
    | (_, Some err, _) =>
        match err with
        | iterator_Done => mkWalkResult None st []
        | _ => mkWalkResult (Some err) st []
        end
    | (Some attrs, None, it') =>
        match f (nameOf attrs) st with
        | (Some err, st') =>
            match err with
            | StopIteration => mkWalkResult None st' [nameOf attrs]
            | _ => mkWalkResult (Some err) st' [nameOf attrs]
            end
        | (None, st') =>
            let r := walkLoop h s f (pending it') (final it') st' in
            mkWalkResult (walkErr r) (walkState r) (nameOf attrs :: visited r)
        end
    | (None, None, _) => mkWalkResult None st []
    end.
Proof. destruct it as [[|a rest] fin]; reflexivity. Qed.

(** The callback sees the listed objects in the order of the listing,
    from the first one on, without gaps and without repetition. *)
Lemma walkLoop_visited_firstn (f : visitor St) (fin : error)
      (objs : list ObjectAttrs) :
  forall st,
    exists k,
      visited (walkLoop h s f objs fin st) = map nameOf (firstn k objs).
Proof.
  induction objs as [|a objs IH]; intros st.
  - exists 0. simpl. destruct fin; reflexivity.
  - simpl. fold (nameOf a).
    destruct (f (nameOf a) st) as [[err|] st'].
    + exists 1. destruct err; reflexivity.
    + destruct (IH st') as [k Hk]. exists (S k). simpl. now rewrite Hk.
Qed.

Variable prefix : string.
Variable startingPoint : string.
Variable f : visitor St.
Variable st : St.

(** The stripped base path and the objects the backend lists. *)
Let base : string := strings.TrimLeft (Path (deref h (baseURL s))) "/".
Let q : Query := walkQuery h s prefix startingPoint.
Let listed : list ObjectAttrs :=
  pending (Bucket_Objects (client s) ctx (Host (deref h (baseURL s))) q).

(** C3: if the callback returns [nil] on the objects [before], and an
    error on the next object [a], the walk stops there: the callback is
    invoked on [before] and [a] and on nothing after, and [WalkFrom]
    returns [nil] when the error is [StopIteration] and the error itself
    otherwise. *)
Theorem WalkFrom_callback_error
        (before after : list ObjectAttrs) (a : ObjectAttrs)
        (st1 st2 : St) (err : error) :
  listed = (before ++ a :: after)%list ->
  visitAll f (map nameOf before) st = Some st1 ->
  f (nameOf a) st1 = (Some err, st2) ->
  WalkFrom ctx h s prefix startingPoint f st
  = mkWalkResult
      match err with StopIteration => None | _ => Some err end
      st2 (map nameOf before ++ [nameOf a]).
Proof.
  intros Hlisted Hall Herr. unfold WalkFrom.
  fold q. fold listed. rewrite Hlisted.
  now apply walkLoop_first_error with (st1 := st1).
Qed.

Lemma walkQuery_Prefix_startingPoint :
  Prefix q = Prefix (walkQuery h s prefix "").
Proof.
  subst q. unfold walkQuery. simpl.
  destruct (String.eqb startingPoint ""); reflexivity.
Qed.

(** The query prefix is the base path with a trailing separator
    when [prefix] is empty, and otherwise that string joined with
    [prefix], with a separator appended when [prefix] ends with one (so
    the query prefix then ends with a separator too); on a backend that
    honours the query, every visited name is the name of a listed object
    whose key begins with the query prefix. *)
Theorem WalkFrom_scope :
  honoursQuery (client s) ->
  (prefix = "" -> Prefix q = base ++ "/") /\
  (prefix <> "" -> endsWithSlash prefix = false ->
   Prefix q = filepath.Join [base ++ "/"; prefix]) /\
  (endsWithSlash prefix = true ->
   Prefix q = filepath.Join [base ++ "/"; prefix] ++ "/" /\
   strings.HasSuffix (Prefix q) "/" = true) /\
  (forall n,
      In n (visited (WalkFrom ctx h s prefix startingPoint f st)) ->
      exists a,
        In a listed /\ n = toBaseName h s (Name a) /\
        strings.HasPrefix (Name a) (Prefix q) = true).
Proof.
  intros Hq.
  assert (Hp : Prefix q =
               if negb (String.eqb prefix "") then
                 if endsWithSlash prefix
                 then filepath.Join [base ++ "/"; prefix] ++ "/"
                 else filepath.Join [base ++ "/"; prefix]
               else base ++ "/").
  { rewrite walkQuery_Prefix_startingPoint. unfold walkQuery. simpl.
    fold base. destruct (String.eqb prefix ""); simpl; [reflexivity |].
    destruct (endsWithSlash prefix); reflexivity. }
  split; [|split; [|split]].
  - intros ->. rewrite Hp. reflexivity.
  - intros Hne Hends. rewrite Hp, Hends.
    apply String.eqb_neq in Hne. rewrite Hne. reflexivity.
  - intros Hends. rewrite Hp, Hends.
    destruct (String.eqb prefix "") eqn:He.
    + apply String.eqb_eq in He. subst prefix. discriminate.
    + simpl. split; [reflexivity | apply HasSuffix_append].
  - intros n Hin. unfold WalkFrom in Hin. fold q in Hin. fold listed in Hin.
    apply walkLoop_visited in Hin as (a & Ha & ->).
    exists a. split; [exact Ha |]. split; [reflexivity |].
    exact (proj1 (Hq _ _ _ _ Ha)).
Qed.

(** C5: for a non-empty [startingPoint] the start offset of the query is
    the query prefix joined with [startingPoint]; on a backend that
    honours the query, every visited name is the name of a listed
    object, and no such object has a key ordered before that offset. *)
Theorem WalkFrom_start_offset :
  honoursQuery (client s) ->
  startingPoint <> "" ->
  StartOffset q = filepath.Join [Prefix q; startingPoint] /\
  (forall n,
      In n (visited (WalkFrom ctx h s prefix startingPoint f st)) ->
      exists a,
        In a listed /\ n = toBaseName h s (Name a) /\
        String.ltb (Name a) (StartOffset q) = false).
Proof.
  intros Hq Hne. split.
  - subst q. unfold walkQuery. apply String.eqb_neq in Hne.
    rewrite Hne. reflexivity.
  - intros n Hin. unfold WalkFrom in Hin. fold q in Hin. fold listed in Hin.
    apply walkLoop_visited in Hin as (a & Ha & ->).
    exists a. split; [exact Ha |]. split; [reflexivity |].
    pose proof (proj2 (Hq _ _ _ _ Ha)) as Hle.
    unfold String.leb in Hle. unfold String.ltb.
    rewrite String.compare_antisym.
    destruct (String.compare (StartOffset q) (Name a));
      simpl; congruence.
Qed.

(** C10: [Walk] is [WalkFrom] with the empty starting point, whose query
    has no start offset: the empty offset is below every key. *)
Theorem Walk_is_WalkFrom_empty :
  Walk ctx h s prefix f st = WalkFrom ctx h s prefix "" f st /\
  StartOffset (walkQuery h s prefix "") = "" /\
  (forall key,
      String.ltb key (StartOffset (walkQuery h s prefix "")) = false).
Proof.
  assert (Hoff : StartOffset (walkQuery h s prefix "") = "").
  { unfold walkQuery. simpl.
    destruct (String.eqb prefix ""); simpl; [reflexivity |].
    destruct (endsWithSlash prefix); reflexivity. }
  split; [reflexivity |]. split; [exact Hoff |].
  intros key. rewrite Hoff. destruct key; reflexivity.
Qed.

End Enumeration.

(** The in-memory bucket honours the queries. *)
Lemma bucketClient_honoursQuery (keys : list string) :
  honoursQuery (Sample.bucketClient keys).
Proof.
  intros ctx bkt q a Hin. simpl in Hin.
  apply in_map_iff in Hin as (k & <- & Hk).
  apply filter_In in Hk as [_ Hm]. unfold Sample.matches in Hm.
  apply andb_true_iff in Hm. exact Hm.
Qed.

(** Stop at the third of ten objects: no error, three calls. *)
Lemma WalkFrom_callback_error_witness :
  WalkFrom 0 Sample.heap (Sample.store Sample.tenKeys ".txt" false) "" ""
           (Sample.stopAt 3) 0
  = mkWalkResult None 3 ["01"; "02"; "03"].
Proof.
  apply (WalkFrom_callback_error 0 Sample.heap
           (Sample.store Sample.tenKeys ".txt" false) "" "" (Sample.stopAt 3) 0
           [mkObjectAttrs "root/01.txt"; mkObjectAttrs "root/02.txt"]
           (map mkObjectAttrs
                ["root/04.txt"; "root/05.txt"; "root/06.txt"; "root/07.txt";
                 "root/08.txt"; "root/09.txt"; "root/10.txt"])
           (mkObjectAttrs "root/03.txt") 2 3 StopIteration).
  - reflexivity.
  - reflexivity.
  - reflexivity.
Defined.

(** A callback error other than the stop sentinel is returned as it is. *)
Example WalkFrom_callback_failure_ex :
  WalkFrom 0 Sample.heap (Sample.store Sample.tenKeys ".txt" false) "" ""
           (Sample.failAt 3 (errorString "boom")) 0
  = mkWalkResult (Some (errorString "boom")) 3 ["01"; "02"; "03"].
Proof. reflexivity. Qed.

Lemma WalkFrom_scope_witness :
  Prefix (walkQuery Sample.heap (Sample.store Sample.tenKeys ".txt" false)
                    "sub/" "")
  = filepath.Join ["root" ++ "/"; "sub/"] ++ "/" /\
  strings.HasSuffix
    (Prefix (walkQuery Sample.heap (Sample.store Sample.tenKeys ".txt" false)
                       "sub/" "")) "/" = true.
Proof.
  apply (proj1 (proj2 (proj2
           (WalkFrom_scope 0 Sample.heap
              (Sample.store Sample.tenKeys ".txt" false) "sub/" ""
              Sample.count 0 (bucketClient_honoursQuery Sample.tenKeys))))).
  reflexivity.
Defined.

Lemma WalkFrom_start_offset_witness :
  StartOffset (walkQuery Sample.heap
                 (Sample.store Sample.tenKeys ".txt" false) "" "04")
  = "root/04" /\
  (forall n,
      In n (visited (WalkFrom 0 Sample.heap
                       (Sample.store Sample.tenKeys ".txt" false) "" "04"
                       Sample.count 0)) ->
      exists a,
        In a (map mkObjectAttrs
                  ["root/04.txt"; "root/05.txt"; "root/06.txt"; "root/07.txt";
                   "root/08.txt"; "root/09.txt"; "root/10.txt"]) /\
        n = toBaseName Sample.heap
              (Sample.store Sample.tenKeys ".txt" false) (Name a) /\
        String.ltb (Name a) "root/04" = false).
Proof.
  apply (WalkFrom_start_offset 0 Sample.heap
           (Sample.store Sample.tenKeys ".txt" false) "" "04" Sample.count 0
           (bucketClient_honoursQuery Sample.tenKeys)).
  discriminate.
Defined.

(** Resuming at the fourth of ten objects visits the fourth to the
    tenth. *)
Example WalkFrom_resume_ex :
  visited (WalkFrom 0 Sample.heap (Sample.store Sample.tenKeys ".txt" false)
                    "" "04" Sample.count 0)
  = ["04"; "05"; "06"; "07"; "08"; "09"; "10"].
Proof. reflexivity. Qed.

(** ** Sub-stores *)

Section Heaps.

Lemma deref_alloc_new (h : Heap) (u : URL) :
  deref (snd (alloc h u)) (fst (alloc h u)) = u.
Proof.
  unfold deref, alloc. simpl.
  rewrite app_nth2 by lia. now rewrite Nat.sub_diag.
Qed.

Lemma deref_alloc_old (h : Heap) (u : URL) (p : ptr) :
  p < List.length h -> deref (snd (alloc h u)) p = deref h p.
Proof. intros Hp. unfold deref, alloc. simpl. now apply app_nth1. Qed.

Lemma deref_setPath_same (h : Heap) :
  forall (p : ptr) (v : string),
    p < List.length h ->
    deref (setPath h p v) p
    = mkURL (Scheme (deref h p)) (Host (deref h p)) v.
Proof.
  induction h as [|u h IH]; intros p v Hp; simpl in Hp; [lia |].
  destruct p as [|p]; [reflexivity |].
  apply (IH p v). lia.
Qed.

Lemma deref_setPath_other (h : Heap) :
  forall (p p' : ptr) (v : string),
    p' <> p -> deref (setPath h p v) p' = deref h p'.
Proof.
  induction h as [|u h IH]; intros p p' v Hne; [reflexivity |].
  destruct p as [|p]; destruct p' as [|p']; try reflexivity.
  - congruence.
  - apply (IH p p' v). congruence.
Qed.

End Heaps.

Section SubStores.

Variable env : Env.
Variable h : Heap.
Variable s : GSStore.
Variable subFolder : string.

(** C9: when the base URL of the store is an allocated object whose
    string form parses back to a URL with the same path, and a storage
    client can be created, [SubStore] returns a store on a new URL
    object whose path is the parent's path joined with the segment, with
    the parent's extension, compression type and overwrite flag; every
    URL object that existed before, the parent's among them, is as it
    was. *)
Theorem SubStore_config (parsed : URL) (c : Client) :
  baseURL s < List.length h ->
  url_Parse env (url_String env (deref h (baseURL s))) = inl parsed ->
  Path parsed = Path (deref h (baseURL s)) ->
  storage_NewClient env context_Background = inl c ->
  exists (s' : GSStore) (h' : Heap),
    SubStore env h s subFolder = (inl s', h') /\
    Path (deref h' (baseURL s'))
    = path.Join [Path (deref h (baseURL s)); subFolder] /\
    extension (common s') = extension (common s) /\
    compressionType (common s') = compressionType (common s) /\
    overwrite (common s') = overwrite (common s) /\
    baseURL s' <> baseURL s /\
    (forall p, p < List.length h -> deref h' p = deref h p).
Proof.
  intros Hvalid Hparse Hpath Hclient.
  unfold SubStore, NewGSStore. rewrite Hparse, Hclient.
  pose proof (deref_alloc_new h parsed) as Hnew.
  pose proof (deref_alloc_old h parsed) as Hold.
  destruct (alloc h parsed) as [url h1] eqn:Halloc.
  simpl in Hnew, Hold.
  assert (Hurl : url = List.length h)
    by (unfold alloc in Halloc; congruence).
  assert (Hlen : List.length h1 = S (List.length h)).
  { unfold alloc in Halloc. injection Halloc as _ <-.
    rewrite length_app. simpl. lia. }
  eexists _, _. split; [reflexivity |]. simpl.
  repeat split.
  - rewrite deref_setPath_same by lia. simpl.
    now rewrite Hnew, Hpath.
  - lia.
  - intros p Hp. rewrite deref_setPath_other by lia. now apply Hold.
Qed.

(** Without a client, or when the base URL does not parse, there is no
    sub-store and no URL object is changed. *)
Lemma SubStore_no_client (parsed : URL) (err : error) :
  url_Parse env (url_String env (deref h (baseURL s))) = inl parsed ->
  storage_NewClient env context_Background = inr err ->
  fst (SubStore env h s subFolder) = inr err.
Proof.
  intros Hparse Hclient. unfold SubStore, NewGSStore.
  rewrite Hparse, Hclient. reflexivity.
Qed.

Lemma SubStore_parse_error (err : error) :
  url_Parse env (url_String env (deref h (baseURL s))) = inr err ->
  SubStore env h s subFolder
  = (inr (wrapError "gs store parsing base url" err), h).
Proof. intros Hparse. unfold SubStore. now rewrite Hparse. Qed.

End SubStores.

(** [SubStore("x")] on a store with base [gs://bkt/root]. *)
Lemma SubStore_config_witness :
  exists (s' : GSStore) (h' : Heap),
    SubStore (Sample.env []) Sample.heap (Sample.store [] ".txt" true) "x"
    = (inl s', h') /\
    Path (deref h' (baseURL s')) = path.Join ["/root"; "x"] /\
    extension (common s') = ".txt" /\
    compressionType (common s') = "" /\
    overwrite (common s') = true /\
    baseURL s' <> 0 /\
    (forall p, p < 1 -> deref h' p = deref Sample.heap p).
Proof.
  apply (SubStore_config (Sample.env []) Sample.heap
           (Sample.store [] ".txt" true) "x"
           (mkURL "gs" "bkt" "/root") (Sample.bucketClient [])).
  - simpl. lia.
  - reflexivity.
  - reflexivity.
  - reflexivity.
Defined.

Example SubStore_ex :
  SubStore (Sample.env []) Sample.heap (Sample.store [] ".txt" true) "x"
  = (inl (mkGSStore 1 (Sample.bucketClient [])
                    (mkCommonStore "" ".txt" true)),
     [mkURL "gs" "bkt" "/root"; mkURL "gs" "bkt" "/root/x"]).
Proof. reflexivity. Qed.

(** * Further properties of the store *)

(** ** Write, open and exists: which outcomes are possible *)

Section Outcomes.

Variable env : Env.
Variable ctx : Context.
Variable h : Heap.
Variable s : GSStore.
Variable name : string.

Let target : ObjectHandle :=
  Object (Host (deref h (baseURL s))) (ObjectPath h s name).

(** X1: [silencePreconditionError] turns an error into [nil] exactly when
    the error is itself a [googleapi.Error] of status 412, and returns
    every other error as it is; an error that only wraps a 412 is such
    an other error. *)
Theorem silencePreconditionError_None_iff (err : error) :
  (silencePreconditionError err = None <->
   exists msg, err = googleapi_Error 412 msg) /\
  ((forall msg, err <> googleapi_Error 412 msg) ->
   silencePreconditionError err = Some err) /\
  (silencePreconditionError err = None \/
   silencePreconditionError err = Some err).
Proof.
  split; [split |].
  - destruct err; simpl; try discriminate.
    destruct (Code =? http_StatusPreconditionFailed)%Z eqn:Hc;
      [|discriminate].
    apply Z.eqb_eq in Hc. subst Code. intros _. now exists Message.
  - intros [msg ->]. reflexivity.
  - split.
    + apply silencePreconditionError_other.
    + destruct err; simpl; auto.
      destruct (Code =? http_StatusPreconditionFailed)%Z; auto.
Qed.

(** X2: [WriteObject] succeeds exactly when the copy succeeds and the
    close either succeeds or, for a store that does not overwrite, fails
    with status 412. *)
Theorem WriteObject_success_iff (f : Reader) :
  let copied := compressedCopy env (common s) f (objectWriter h s name) in
  let closed := Writer_Close (client s) ctx (snd copied) in
  WriteObject env ctx h s name f = None <->
  fst copied = None /\
  (closed = None \/
   (overwrite (common s) = false /\
    exists msg, closed = Some (googleapi_Error 412 msg))).
Proof.
  cbv zeta. unfold WriteObject.
  destruct (compressedCopy env (common s) f (objectWriter h s name))
    as [[cerr|] w]; simpl.
  - split; [discriminate | intros [Habs _]; discriminate].
  - destruct (Writer_Close (client s) ctx w) as [err|] eqn:Hclose.
    + destruct (overwrite (common s)) eqn:Hov.
      * split; [discriminate |].
        intros [_ [Habs|[Habs _]]]; discriminate.
      * split.
        -- intros Hs. split; [reflexivity |]. right. split; [reflexivity |].
           destruct err; simpl in Hs; try discriminate.
           destruct (Code =? http_StatusPreconditionFailed)%Z eqn:Hc;
             [|discriminate].
           apply Z.eqb_eq in Hc. subst Code. now exists Message.
        -- intros [_ [Habs|[_ [msg Hmsg]]]]; [discriminate |].
           injection Hmsg as ->. reflexivity.
    + split; [intros _; split; [reflexivity | now left] | reflexivity].
Qed.

(** X3: when opening the backend reader fails, [OpenObject] returns the
    nil reader and an error that is never [storage.ErrObjectNotExist]: it
    is [ErrNotFound] or the backend's own error. *)
Theorem OpenObject_failure_shape (err0 : error) :
  Object_NewReader (client s) ctx target = inr err0 ->
  fst (OpenObject env ctx h s name) = nilReader /\
  exists e,
    snd (OpenObject env ctx h s name) = Some e /\
    e <> storage_ErrObjectNotExist /\
    (e = ErrNotFound \/ e = err0).
Proof.
  intros Hr. unfold OpenObject. fold target. rewrite Hr.
  destruct err0; simpl; (split; [reflexivity |]);
    eexists; (split; [reflexivity |]); (split; [discriminate |]); auto.
Qed.

(** X4: [FileExists] answers [true] exactly when the metadata probe
    succeeds, and whenever it returns an error the answer is [false] and
    the error is not [storage.ErrObjectNotExist]. *)
Theorem FileExists_true_iff :
  (fst (FileExists ctx h s name) = true <->
   exists attrs, Object_Attrs (client s) ctx target = inl attrs) /\
  (forall e,
      snd (FileExists ctx h s name) = Some e ->
      fst (FileExists ctx h s name) = false /\
      e <> storage_ErrObjectNotExist).
Proof.
  unfold FileExists. fold target.
  destruct (Object_Attrs (client s) ctx target) as [attrs|err].
  - split.
    + split; [intros _; now exists attrs | reflexivity].
    + simpl. discriminate.
  - split.
    + split.
      * destruct err; simpl; discriminate.
      * intros [attrs Habs]. discriminate.
    + intros e. destruct err; simpl; intros He; try discriminate;
        injection He as <-; (split; [reflexivity | discriminate]).
Qed.

End Outcomes.

Lemma silencePreconditionError_None_iff_witness :
  silencePreconditionError
    (wrapError "upload" (googleapi_Error 412 "conditionNotMet"))
  = Some (wrapError "upload" (googleapi_Error 412 "conditionNotMet")).
Proof.
  apply (proj1 (proj2 (silencePreconditionError_None_iff
                         (wrapError "upload"
                            (googleapi_Error 412 "conditionNotMet"))))).
  intros msg. discriminate.
Defined.

Lemma OpenObject_failure_shape_witness :
  fst (OpenObject (Sample.env []) 0 Sample.heap
         (Sample.store [] ".txt" false) "a") = nilReader /\
  exists e,
    snd (OpenObject (Sample.env []) 0 Sample.heap
           (Sample.store [] ".txt" false) "a") = Some e /\
    e <> storage_ErrObjectNotExist /\
    (e = ErrNotFound \/ e = storage_ErrObjectNotExist).
Proof.
  apply (OpenObject_failure_shape (Sample.env []) 0 Sample.heap
           (Sample.store [] ".txt" false) "a" storage_ErrObjectNotExist).
  reflexivity.
Defined.

(** ** Stores and their URL objects *)

Section StoreObjects.

Variable env : Env.

(** The store [SubStore] builds, and the heap it leaves. *)
Lemma SubStore_result (h : Heap) (s : GSStore) (subFolder : string)
      (parsed : URL) (c : Client) :
  url_Parse env (url_String env (deref h (baseURL s))) = inl parsed ->
  storage_NewClient env context_Background = inl c ->
  SubStore env h s subFolder
  = (inl (mkGSStore (List.length h) c
            (mkCommonStore (compressionType (common s))
                           (extension (common s)) (overwrite (common s)))),
     setPath (h ++ [parsed])%list (List.length h)
             (path.Join [Path parsed; subFolder])).
Proof.
  intros Hparse Hclient. unfold SubStore, NewGSStore, alloc.
  rewrite Hparse, Hclient. cbv zeta iota beta.
  unfold deref at 1. rewrite app_nth2 by lia.
  now rewrite Nat.sub_diag.
Qed.

(** X5: [SubStore] returns a store exactly when the base URL's string
    form parses and a storage client can be created; when the parse
    fails, the error is wrapped and no URL object is created. *)
Theorem SubStore_succeeds_iff (h : Heap) (s : GSStore) (subFolder : string) :
  ((exists s', fst (SubStore env h s subFolder) = inl s') <->
   (exists parsed,
       url_Parse env (url_String env (deref h (baseURL s))) = inl parsed) /\
   (exists c, storage_NewClient env context_Background = inl c)) /\
  (forall err,
      url_Parse env (url_String env (deref h (baseURL s))) = inr err ->
      SubStore env h s subFolder
      = (inr (wrapError "gs store parsing base url" err), h)).
Proof.
  split.
  - unfold SubStore, NewGSStore.
    destruct (url_Parse env (url_String env (deref h (baseURL s))))
      as [parsed|perr].
    + destruct (alloc h parsed) as [url h1].
      destruct (storage_NewClient env context_Background) as [c|cerr]; simpl.
      * split; [intros _; split; eauto | eauto].
      * split; [intros [s' Habs]; discriminate |].
        intros [_ [c Habs]]. discriminate.
    + simpl. split; [intros [s' Habs]; discriminate |].
      intros [[parsed Habs] _]. discriminate.
  - intros err Hparse. unfold SubStore. now rewrite Hparse.
Qed.

(** X6: [NewGSStore] keeps the pointer it is given: the store reads its
    base path from the caller's URL object, so an assignment to that
    object's [Path] changes the keys of the store. *)
Theorem NewGSStore_shares_URL (p : ptr) (ext ct : string) (ow : bool)
        (s : GSStore) (h : Heap) (v n : string) :
  NewGSStore env p ext ct ow = inl s ->
  p < List.length h ->
  baseURL s = p /\
  ObjectPath (setPath h p v) s n
  = path.Join [strings.TrimLeft v "/"; n ++ ext].
Proof.
  unfold NewGSStore. intros Hnew Hp.
  destruct (storage_NewClient env context_Background) as [c|e];
    [|discriminate].
  injection Hnew as <-. split; [reflexivity |].
  unfold ObjectPath, pathWithExt. simpl.
  now rewrite deref_setPath_same.
Qed.

(** X7: a sub-store has a URL object of its own: after [SubStore], an
    assignment to the parent's [Path] leaves the keys of the sub-store as
    they are, and an assignment to the sub-store's [Path] leaves the keys
    of the parent as they are. *)
Theorem SubStore_independent (h : Heap) (s : GSStore) (subFolder : string)
        (parsed : URL) (c : Client) :
  baseURL s < List.length h ->
  url_Parse env (url_String env (deref h (baseURL s))) = inl parsed ->
  storage_NewClient env context_Background = inl c ->
  exists (s' : GSStore) (h' : Heap),
    SubStore env h s subFolder = (inl s', h') /\
    (forall v n,
        ObjectPath (setPath h' (baseURL s) v) s' n = ObjectPath h' s' n) /\
    (forall v n,
        ObjectPath (setPath h' (baseURL s') v) s n = ObjectPath h s n).
Proof.
  intros Hvalid Hparse Hclient.
  rewrite (SubStore_result h s subFolder parsed c Hparse Hclient).
  eexists _, _. split; [reflexivity |]. simpl. split.
  - intros v n. unfold ObjectPath. simpl.
    now rewrite !(deref_setPath_other _ (baseURL s) (List.length h)) by lia.
  - intros v n. unfold ObjectPath.
    rewrite !deref_setPath_other by lia.
    unfold deref. now rewrite app_nth1 by lia.
Qed.

End StoreObjects.

Lemma NewGSStore_shares_URL_witness :
  baseURL (Sample.store [] ".txt" false) = 0 /\
  ObjectPath (setPath Sample.heap 0 "/other") (Sample.store [] ".txt" false) "a"
  = path.Join [strings.TrimLeft "/other" "/"; "a" ++ ".txt"].
Proof.
  apply (NewGSStore_shares_URL (Sample.env []) 0 ".txt" "" false
           (Sample.store [] ".txt" false) Sample.heap "/other" "a").
  - reflexivity.
  - simpl. lia.
Defined.

Lemma SubStore_independent_witness :
  exists (s' : GSStore) (h' : Heap),
    SubStore (Sample.env []) Sample.heap (Sample.store [] ".txt" false) "x"
    = (inl s', h') /\
    (forall v n,
        ObjectPath (setPath h' (baseURL (Sample.store [] ".txt" false)) v) s' n
        = ObjectPath h' s' n) /\
    (forall v n,
        ObjectPath (setPath h' (baseURL s') v) (Sample.store [] ".txt" false) n
        = ObjectPath Sample.heap (Sample.store [] ".txt" false) n).
Proof.
  apply (SubStore_independent (Sample.env []) Sample.heap
           (Sample.store [] ".txt" false) "x"
           (mkURL "gs" "bkt" "/root") (Sample.bucketClient [])).
  - simpl. lia.
  - reflexivity.
  - reflexivity.
Defined.

(** ** [path.Clean] on plain paths with redundant separators *)

Section CleanSloppy.

Import path.

Lemma cleanAll_nil (rooted : bool) (out : list ascii) (dotdot : nat) :
  cleanAll rooted "" out dotdot = out.
Proof. reflexivity. Qed.

Lemma cleanAll_slash (rooted : bool) (rest : string) (out : list ascii)
      (dotdot : nat) :
  cleanAll rooted (String slash rest) out dotdot
  = cleanAll rooted rest out dotdot.
Proof. reflexivity. Qed.

Lemma cleanAll_slashes (k : nat) (rooted : bool) (rest : string)
      (out : list ascii) (dotdot : nat) :
  cleanAll rooted (slashes k ++ rest) out dotdot
  = cleanAll rooted rest out dotdot.
Proof.
  induction k as [|k IH]; [reflexivity |].
  simpl. rewrite cleanAll_slash. exact IH.
Qed.

Lemma list_ascii_of_string_app (a b : string) :
  list_ascii_of_string (a ++ b)
  = (list_ascii_of_string a ++ list_ascii_of_string b)%list.
Proof. induction a as [|c a IH]; simpl; [reflexivity | now rewrite IH]. Qed.

Lemma length_list_ascii_of_string (a : string) :
  List.length (list_ascii_of_string a) = String.length a.
Proof. induction a as [|c a IH]; simpl; [reflexivity | now rewrite IH]. Qed.

(** One plain segment, for a rooted or a relative path. *)
Lemma cleanAll_plain_seg (rooted : bool) (seg tl : string)
      (out : list ascii) (dotdot : nat) :
  plainSegment seg = true -> atEndOrSlash tl = true ->
  cleanAll rooted (seg ++ tl) out dotdot
  = cleanAll rooted tl (withSlash rooted out ++ list_ascii_of_string seg)%list
             dotdot.
Proof.
  intros Hp Htl.
  apply plainSegment_inv in Hp as (Hne & Hns & Hdot1 & Hdot2).
  pose proof (copyElement_noSlash seg tl Hns Htl) as Hcopy.
  destruct seg as [|c seg]; [congruence |].
  apply noSlash_cons in Hns as [Hc Hns].
  change (String c seg ++ tl) with (String c (seg ++ tl)) in *.
  unfold cleanAll at 1. cbn [String.length cleanLoop]. rewrite Hc.
  assert (Hdot : isDot c && atEndOrSlash (seg ++ tl) = false).
  { apply andb_false_iff.
    destruct (isDot c) eqn:Hd; [right | now left].
    apply isDot_eq in Hd. subst c.
    destruct (atEndOrSlash (seg ++ tl)) eqn:He; [|reflexivity].
    apply atEndOrSlash_inside in He; try assumption.
    subst seg. now destruct Hdot1. }
  rewrite Hdot.
  assert (Hdd : isDot c &&
                match seg ++ tl with
                | "" => false
                | String c1 rest2 => isDot c1 && atEndOrSlash rest2
                end = false).
  { apply andb_false_iff.
    destruct (isDot c) eqn:Hd; [right | now left].
    apply isDot_eq in Hd. subst c.
    destruct seg as [|d seg].
    - now destruct Hdot1.
    - change (String d seg ++ tl) with (String d (seg ++ tl)).
      apply noSlash_cons in Hns as [_ Hns].
      apply andb_false_iff.
      destruct (isDot d) eqn:Hd; [right | now left].
      apply isDot_eq in Hd. subst d.
      destruct (atEndOrSlash (seg ++ tl)) eqn:He; [|reflexivity].
      apply atEndOrSlash_inside in He; try assumption.
      subst seg. now destruct Hdot2. }
  rewrite Hdd, Hcopy. fold (withSlash rooted out).
  unfold cleanAll. apply cleanLoop_fuel.
  rewrite length_append. lia.
Qed.

Lemma withSlash_after_segment (rooted : bool) (out : list ascii)
      (seg : string) :
  seg <> "" ->
  withSlash rooted (withSlash rooted out ++ list_ascii_of_string seg)
  = ((withSlash rooted out ++ list_ascii_of_string seg) ++ [slash])%list.
Proof.
  intros Hne.
  assert (Hseg : 1 <= String.length seg)
    by (destruct seg; [congruence | simpl; lia]).
  unfold withSlash at 1.
  rewrite length_app, length_list_ascii_of_string.
  assert (Hw : rooted = true -> 1 <= List.length (withSlash rooted out)).
  { intros ->. unfold withSlash. simpl.
    destruct (List.length out =? 1)%nat eqn:H1; simpl.
    - apply Nat.eqb_eq in H1. lia.
    - rewrite length_app. simpl. lia. }
  destruct rooted; simpl.
  - specialize (Hw eq_refl).
    destruct (_ =? 1)%nat eqn:H1; [apply Nat.eqb_eq in H1; lia | reflexivity].
  - destruct (_ =? 0)%nat eqn:H0; [apply Nat.eqb_eq in H0; lia | reflexivity].
Qed.

(** A plain path followed by the end of the input or by a separator. *)
Lemma cleanAll_plain_path (rooted : bool) (segs : list string) :
  forall (tl : string) (out : list ascii) (dotdot : nat),
    segs <> [] -> forallb plainSegment segs = true ->
    atEndOrSlash tl = true ->
    cleanAll rooted (String.concat "/" segs ++ tl) out dotdot
    = cleanAll rooted tl
        (withSlash rooted out
           ++ list_ascii_of_string (String.concat "/" segs))%list dotdot.
Proof.
  induction segs as [|seg segs IH]; intros tl out dotdot Hne Hp Htl;
    [congruence |].
  simpl in Hp. apply andb_true_iff in Hp as [Hseg Hp].
  destruct segs as [|seg2 segs].
  - cbn [String.concat]. now apply cleanAll_plain_seg.
  - change (String.concat "/" (seg :: seg2 :: segs))
      with (seg ++ "/" ++ String.concat "/" (seg2 :: segs)).
    set (more := String.concat "/" (seg2 :: segs)) in *.
    rewrite !append_assoc.
    rewrite cleanAll_plain_seg by (assumption || reflexivity).
    change ("/" ++ more ++ tl) with (String slash (more ++ tl)).
    rewrite cleanAll_slash.
    rewrite (IH tl _ dotdot) by (assumption || discriminate).
    rewrite withSlash_after_segment
      by (apply plainSegment_inv in Hseg; tauto).
    rewrite list_ascii_of_string_app.
    change (list_ascii_of_string ("/" ++ more))
      with (slash :: list_ascii_of_string more).
    now rewrite <- !app_assoc.
Qed.

Lemma atEndOrSlash_slashes (k : nat) (rest : string) :
  atEndOrSlash rest = true -> atEndOrSlash (slashes k ++ rest) = true.
Proof. destruct k; [trivial | reflexivity]. Qed.

Lemma plainPath_first (p : string) :
  plainPath p -> exists c rest, p = String c rest /\ isSlash c = false.
Proof.
  intros (segs & Hne & Hp & ->). unfold strings.Join.
  destruct segs as [|seg segs]; [congruence |].
  simpl in Hp. apply andb_true_iff in Hp as [Hseg _].
  apply plainSegment_inv in Hseg as (Hn & Hns & _).
  destruct seg as [|c seg]; [congruence |].
  apply noSlash_cons in Hns as [Hc _].
  destruct segs; simpl; eauto.
Qed.

(** The buffer at the end of the loop, for one plain path between runs
    of separators. *)
Lemma cleanAll_one (rooted : bool) (b : string) (k : nat)
      (out : list ascii) (dotdot : nat) :
  plainPath b ->
  cleanAll rooted (b ++ slashes k) out dotdot
  = (withSlash rooted out ++ list_ascii_of_string b)%list.
Proof.
  intros (segs & Hne & Hp & ->). unfold strings.Join.
  rewrite cleanAll_plain_path
    by (assumption || (rewrite <- (append_nil_r (slashes k));
                       now apply atEndOrSlash_slashes)).
  rewrite <- (append_nil_r (slashes k)). now rewrite cleanAll_slashes.
Qed.

(** The same for two plain paths with at least one separator between. *)
Lemma cleanAll_two (rooted : bool) (b x : string) (j k : nat)
      (out : list ascii) (dotdot : nat) :
  plainPath b -> plainPath x ->
  cleanAll rooted (b ++ slashes (S j) ++ x ++ slashes k) out dotdot
  = (withSlash rooted out ++ list_ascii_of_string (b ++ "/" ++ x))%list.
Proof.
  intros Hb Hx.
  pose proof Hb as (segs & Hne & Hp & Heq). unfold strings.Join in Heq.
  rewrite Heq.
  rewrite cleanAll_plain_path by (assumption || reflexivity).
  rewrite cleanAll_slashes, cleanAll_one by assumption.
  rewrite withSlash_after_segment.
  - rewrite list_ascii_of_string_app.
    change (list_ascii_of_string ("/" ++ x))
      with (slash :: list_ascii_of_string x).
    now rewrite <- !app_assoc.
  - rewrite <- Heq. destruct (plainPath_first b Hb) as (c & rest & -> & _).
    discriminate.
Qed.

Lemma Clean_relative (c : ascii) (rest : string) :
  isSlash c = false ->
  Clean (String c rest)
  = let out := cleanAll false (String c rest) [] 0 in
    if (List.length out =? 0)%nat then "." else string_of_list_ascii out.
Proof. intros Hc. unfold Clean. rewrite Hc. reflexivity. Qed.

Lemma Clean_rooted (rest : string) :
  Clean (String slash rest)
  = let out := cleanAll true rest [slash] 1 in
    if (List.length out =? 0)%nat then "." else string_of_list_ascii out.
Proof.
  unfold Clean, cleanAll. change (isSlash slash) with true. cbv iota.
  rewrite cleanLoop_fuel by (simpl; lia). reflexivity.
Qed.

Lemma string_of_nonempty (l : list ascii) :
  l <> [] ->
  (if (List.length l =? 0)%nat then "." else string_of_list_ascii l)
  = string_of_list_ascii l.
Proof. destruct l; [congruence | reflexivity]. Qed.

Lemma chars_nonempty (out : list ascii) (b : string) :
  plainPath b -> (out ++ list_ascii_of_string b)%list <> [].
Proof.
  intros Hb. destruct (plainPath_first b Hb) as (c & rest & -> & _).
  simpl. destruct out; discriminate.
Qed.

(** [path.Clean] on a relative plain path with trailing separators. *)
Lemma Clean_plain_trailing (b : string) (k : nat) :
  plainPath b -> Clean (b ++ slashes k) = b.
Proof.
  intros Hb. destruct (plainPath_first b Hb) as (c & rest & Heq & Hc).
  rewrite Heq. change (String c rest ++ slashes k)
    with (String c (rest ++ slashes k)).
  rewrite Clean_relative by exact Hc.
  change (String c (rest ++ slashes k)) with (String c rest ++ slashes k).
  rewrite <- Heq. cbv zeta. rewrite cleanAll_one by exact Hb.
  rewrite string_of_nonempty by now apply chars_nonempty.
  apply string_of_list_ascii_of_string.
Qed.

(** [path.Clean] on two relative plain paths with separators between and
    after. *)
Lemma Clean_plain_two (b x : string) (j k : nat) :
  plainPath b -> plainPath x ->
  Clean (b ++ slashes (S j) ++ x ++ slashes k) = b ++ "/" ++ x.
Proof.
  intros Hb Hx. destruct (plainPath_first b Hb) as (c & rest & Heq & Hc).
  rewrite Heq at 1.
  change (String c rest ++ slashes (S j) ++ x ++ slashes k)
    with (String c (rest ++ slashes (S j) ++ x ++ slashes k)).
  rewrite Clean_relative by exact Hc.
  change (String c (rest ++ slashes (S j) ++ x ++ slashes k))
    with (String c rest ++ slashes (S j) ++ x ++ slashes k).
  rewrite <- Heq. cbv zeta. rewrite cleanAll_two by assumption.
  rewrite string_of_nonempty.
  - apply string_of_list_ascii_of_string.
  - unfold withSlash. simpl.
    destruct (plainPath_first b Hb) as (c' & rest' & -> & _). discriminate.
Qed.

(** [path.Clean] on a rooted path: leading separators, then two plain
    paths with separators between and after. *)
Lemma Clean_rooted_two (b x : string) (i j k : nat) :
  plainPath b -> plainPath x ->
  Clean (slashes (S i) ++ b ++ slashes (S j) ++ x ++ slashes k)
  = "/" ++ b ++ "/" ++ x.
Proof.
  intros Hb Hx.
  change (slashes (S i) ++ b ++ slashes (S j) ++ x ++ slashes k)
    with (String slash (slashes i ++ b ++ slashes (S j) ++ x ++ slashes k)).
  rewrite Clean_rooted. cbv zeta.
  rewrite cleanAll_slashes, cleanAll_two by assumption.
  rewrite string_of_nonempty by (unfold withSlash; simpl; discriminate).
  unfold withSlash. simpl.
  now rewrite string_of_list_ascii_of_string.
Qed.

(** [path.Clean] never returns the empty string. *)
Lemma Clean_nonempty (p : string) : Clean p <> "".
Proof.
  unfold Clean. destruct p as [|c rest]; [discriminate |].
  match goal with
  | |- (if ?t then _ else string_of_list_ascii ?o) <> _ =>
      destruct o eqn:Ho; simpl; discriminate
  end.
Qed.

End CleanSloppy.

(** ** Joining and trimming plain paths *)

Section PlainPaths.

Lemma Join2_nonempty (a b : string) :
  a <> "" -> path.Join [a; b] = path.Clean (a ++ "/" ++ b).
Proof.
  intros Ha. cbn [path.Join]. apply String.eqb_neq in Ha. now rewrite Ha.
Qed.

Lemma Join2_empty_iff (a b : string) :
  path.Join [a; b] = "" <-> a = "" /\ b = "".
Proof.
  cbn [path.Join].
  destruct (String.eqb_spec a "") as [->|Ha].
  - destruct (String.eqb_spec b "") as [->|Hb].
    + tauto.
    + split; [|tauto]. intros Habs. now apply Clean_nonempty in Habs.
  - split; [|tauto]. intros Habs. now apply Clean_nonempty in Habs.
Qed.

Lemma slashes_snoc (k : nat) : slashes k ++ "/" = slashes (S k).
Proof. induction k as [|k IH]; simpl; [reflexivity | now rewrite IH]. Qed.

Lemma TrimLeft_slashes (k : nat) (p : string) :
  strings.TrimLeft (slashes k ++ p) "/" = strings.TrimLeft p "/".
Proof. induction k as [|k IH]; [reflexivity | exact IH]. Qed.

Lemma TrimLeft_plain (b rest : string) :
  plainPath b -> strings.TrimLeft (b ++ rest) "/" = b ++ rest.
Proof.
  intros Hb. destruct (plainPath_first b Hb) as (c & r & -> & Hc).
  simpl. unfold path.isSlash, path.slash in Hc. now rewrite Hc.
Qed.

Lemma plainPath_nonempty (b rest : string) : plainPath b -> b ++ rest <> "".
Proof.
  intros Hb. destruct (plainPath_first b Hb) as (c & r & -> & _).
  discriminate.
Qed.

Lemma plainPath_join (b x : string) :
  plainPath b -> plainPath x -> plainPath (b ++ "/" ++ x).
Proof.
  intros (bs & Hb & Hbp & ->) (xs & Hx & Hxp & ->).
  exists (bs ++ xs)%list. repeat split.
  - destruct bs; [congruence | discriminate].
  - now rewrite forallb_app, Hbp, Hxp.
  - unfold strings.Join. now rewrite concat_app.
Qed.

(** Joining a plain path, with separators after it, and a second one. *)
Lemma Join2_plain (b x : string) (j k : nat) :
  plainPath b -> plainPath x ->
  path.Join [b ++ slashes j; x ++ slashes k] = b ++ "/" ++ x.
Proof.
  intros Hb Hx. rewrite Join2_nonempty by now apply plainPath_nonempty.
  rewrite append_assoc.
  replace (slashes j ++ "/" ++ x ++ slashes k)
    with (slashes (S j) ++ x ++ slashes k)
    by (rewrite <- slashes_snoc, append_assoc; reflexivity).
  now apply Clean_plain_two.
Qed.

Lemma Join2_plain_rooted (b x : string) (i j k : nat) :
  plainPath b -> plainPath x ->
  path.Join [slashes (S i) ++ b ++ slashes j; x ++ slashes k]
  = "/" ++ b ++ "/" ++ x.
Proof.
  intros Hb Hx. rewrite Join2_nonempty by discriminate.
  rewrite !append_assoc.
  replace (slashes j ++ "/" ++ x ++ slashes k)
    with (slashes (S j) ++ x ++ slashes k)
    by (rewrite <- slashes_snoc, append_assoc; reflexivity).
  now apply Clean_rooted_two.
Qed.

Lemma prefix_append_cancel (a p t : string) :
  String.prefix (a ++ p) (a ++ t) = String.prefix p t.
Proof.
  induction a as [|c a IH]; simpl; [reflexivity |].
  destruct (ascii_dec c c) as [_|N]; [exact IH | now destruct N].
Qed.

Lemma prefix_slash_plain (k : nat) (rest x : string) :
  (exists c r, x = String c r /\ path.isSlash c = false) ->
  String.prefix (slashes (S k) ++ rest) x = false.
Proof.
  intros (c & r & -> & Hc).
  change (slashes (S k) ++ rest) with (String path.slash (slashes k ++ rest)).
  cbn [String.prefix].
  destruct (ascii_dec path.slash c) as [E|_]; [|reflexivity].
  subst c. discriminate.
Qed.

Lemma prefix_slashes_after (k : nat) (n : string) :
  n = "" \/ (exists c r, n = String c r /\ path.isSlash c = false) ->
  String.prefix (slashes (S k) ++ "/") ("/" ++ n) = false.
Proof.
  intros Hn.
  change (slashes (S k) ++ "/") with (String path.slash (slashes k ++ "/")).
  change ("/" ++ n) with (String path.slash n).
  cbn [String.prefix].
  destruct (ascii_dec path.slash path.slash) as [_|N]; [|now destruct N].
  rewrite slashes_snoc. destruct Hn as [->|Hn].
  - reflexivity.
  - rewrite <- (append_nil_r (slashes (S k))).
    now apply prefix_slash_plain.
Qed.

End PlainPaths.

(** ** Keys and names *)

Section Keys.

Variable h : Heap.
Variable s : GSStore.

Let basePath : string := Path (deref h (baseURL s)).

(** X8: leading separators of the base path do not matter: after [k]
    more of them are put in front of the path of the store's URL object,
    every key, every name and every walk query is what it was. *)
Theorem leading_separators_ignored (k : nat) (n key prefix sp : string) :
  baseURL s < List.length h ->
  let h' := setPath h (baseURL s) (slashes k ++ basePath) in
  ObjectPath h' s n = ObjectPath h s n /\
  toBaseName h' s key = toBaseName h s key /\
  walkQuery h' s prefix sp = walkQuery h s prefix sp.
Proof.
  intros Hvalid h'.
  assert (Ht : strings.TrimLeft (Path (deref h' (baseURL s))) "/"
               = strings.TrimLeft basePath "/").
  { subst h'. rewrite deref_setPath_same by exact Hvalid. simpl.
    apply TrimLeft_slashes. }
  unfold ObjectPath, toBaseName, walkQuery. rewrite Ht.
  repeat split; reflexivity.
Qed.

(** X9: the key of a name is the empty string only when both the
    stripped base path and name + extension are empty. *)
Theorem ObjectPath_empty_iff (n : string) :
  ObjectPath h s n = "" <->
  strings.TrimLeft basePath "/" = "" /\ pathWithExt (common s) n = "".
Proof. unfold ObjectPath. apply Join2_empty_iff. Qed.

(** X10: when the base path is a plain path [b] between any separators
    and name + extension is a plain path, the key is [b], one separator,
    name + extension. *)
Theorem ObjectPath_plain_key (n b : string) (i k : nat) :
  basePath = slashes i ++ b ++ slashes k ->
  plainPath b -> plainPath (pathWithExt (common s) n) ->
  ObjectPath h s n = b ++ "/" ++ pathWithExt (common s) n.
Proof.
  intros Hbase Hb Hn. unfold ObjectPath. fold basePath.
  rewrite Hbase, TrimLeft_slashes, TrimLeft_plain by exact Hb.
  rewrite <- (append_nil_r (pathWithExt (common s) n)) at 1.
  now apply (Join2_plain b _ k 0).
Qed.

Lemma toBaseName_ObjectPath_slashes (n b : string) (i : nat) :
  basePath = slashes i ++ b ->
  plainPath b -> plainPath (pathWithExt (common s) n) ->
  toBaseName h s (ObjectPath h s n) = n.
Proof.
  intros Hbase Hb Hn.
  assert (Ht : strings.TrimLeft basePath "/" = b).
  { rewrite Hbase, TrimLeft_slashes.
    rewrite <- (append_nil_r b) at 1.
    rewrite TrimLeft_plain by exact Hb. apply append_nil_r. }
  unfold ObjectPath. fold basePath. rewrite Ht.
  rewrite <- (append_nil_r b) at 1.
  rewrite <- (append_nil_r (pathWithExt (common s) n)) at 1.
  rewrite (Join2_plain b _ 0 0) by assumption.
  rewrite <- Ht. apply toBaseName_concat.
Qed.

(** X11: on a store whose base path is a plain path after any leading
    separators, every name for which name + extension is a plain path is
    recovered from its key. *)
Theorem toBaseName_ObjectPath_plain_base (n b : string) (i : nat) :
  basePath = slashes i ++ b ->
  plainPath b -> plainPath (pathWithExt (common s) n) ->
  toBaseName h s (ObjectPath h s n) = n.
Proof.
  intros Hbase Hb Hn. now apply toBaseName_ObjectPath_slashes with b i.
Qed.

(** X12: when the base path ends with a separator, the key of a plain
    name is still [b], one separator, name + extension, but [toBaseName]
    does not strip the base from it, and the key is outside the scope of
    a walk with the empty prefix. *)
Theorem trailing_separator_base (n b sp : string) (i k : nat) :
  basePath = slashes i ++ b ++ slashes (S k) ->
  plainPath b -> plainPath (pathWithExt (common s) n) ->
  ObjectPath h s n = b ++ "/" ++ pathWithExt (common s) n /\
  toBaseName h s (ObjectPath h s n) = b ++ "/" ++ n /\
  strings.HasPrefix (ObjectPath h s n) (Prefix (walkQuery h s "" sp)) = false.
Proof.
  intros Hbase Hb Hn.
  assert (Ht : strings.TrimLeft basePath "/" = b ++ slashes (S k)).
  { rewrite Hbase, TrimLeft_slashes. now apply TrimLeft_plain. }
  assert (Hkey : ObjectPath h s n = b ++ "/" ++ pathWithExt (common s) n).
  { unfold ObjectPath. fold basePath. rewrite Ht.
    rewrite <- (append_nil_r (pathWithExt (common s) n)) at 1.
    now apply (Join2_plain b _ (S k) 0). }
  split; [exact Hkey |]. rewrite Hkey. split.
  - unfold toBaseName. fold basePath. rewrite Ht.
    unfold pathWithExt at 1 2. simpl ("" ++ _).
    replace (b ++ "/" ++ n ++ extension (common s))
      with ((b ++ "/" ++ n) ++ extension (common s))
      by (now rewrite !append_assoc).
    rewrite TrimSuffix_append.
    unfold strings.TrimPrefix, strings.HasPrefix.
    rewrite append_assoc, prefix_append_cancel.
    rewrite prefix_slashes_after; [reflexivity |].
    destruct n as [|c n]; [now left | right].
    destruct (plainPath_first _ Hn) as (c' & r & Heq & Hc).
    unfold pathWithExt in Heq. simpl in Heq. injection Heq as -> _.
    eauto.
  - assert (Hq : Prefix (walkQuery h s "" sp) = b ++ slashes (S k) ++ "/").
    { unfold walkQuery. fold basePath. rewrite Ht. simpl.
      destruct (String.eqb sp ""); simpl; now rewrite append_assoc. }
    rewrite Hq. unfold strings.HasPrefix. rewrite prefix_append_cancel.
    apply prefix_slashes_after. right. exact (plainPath_first _ Hn).
Qed.

(** X13: an object under the base whose key does not end with the
    store's extension keeps its full file name: only the base is
    stripped. *)
Theorem toBaseName_other_extension (r : string) :
  strings.HasSuffix (strings.TrimLeft basePath "/" ++ "/" ++ r)
                    (pathWithExt (common s) "") = false ->
  toBaseName h s (strings.TrimLeft basePath "/" ++ "/" ++ r) = r.
Proof.
  intros Hsuf. unfold toBaseName, strings.TrimSuffix. fold basePath.
  rewrite Hsuf. rewrite <- append_assoc. apply TrimPrefix_append.
Qed.

End Keys.

(** ** The round trip of the codec *)

Section CodecRoundTrip.

Variable h : Heap.
Variable s : GSStore.

Let basePath : string := Path (deref h (baseURL s)).

(** On a store at the root of the bucket the key of a plain name is
    name + extension, and the name is recovered from it. *)
Lemma toBaseName_ObjectPath_root (n : string) (i : nat) :
  basePath = slashes i ->
  plainPath (pathWithExt (common s) n) ->
  toBaseName h s (ObjectPath h s n) = n.
Proof.
  intros Hbase Hn.
  assert (Ht : strings.TrimLeft basePath "/" = "").
  { rewrite Hbase, <- (append_nil_r (slashes i)). apply TrimLeft_slashes. }
  assert (Hkey : ObjectPath h s n = pathWithExt (common s) n).
  { unfold ObjectPath. fold basePath. rewrite Ht.
    cbn [path.Join String.eqb].
    assert (Hne : String.eqb (pathWithExt (common s) n) "" = false).
    { apply String.eqb_neq. rewrite <- (append_nil_r (pathWithExt _ _)).
      now apply plainPath_nonempty. }
    rewrite Hne. unfold strings.Join. cbn [String.concat].
    etransitivity; [|exact (Clean_plain_trailing _ 0 Hn)].
    cbn [slashes]. now rewrite append_nil_r. }
  rewrite Hkey. unfold toBaseName. fold basePath. rewrite Ht.
  unfold pathWithExt at 1 2. cbn [append].
  rewrite TrimSuffix_append.
  unfold strings.TrimPrefix, strings.HasPrefix.
  destruct n as [|c n]; [reflexivity |].
  destruct (plainPath_first _ Hn) as (c' & r & Heq & Hc).
  unfold pathWithExt in Heq. cbn [append] in Heq. injection Heq as <- _.
  cbn [String.prefix].
  destruct (ascii_dec "/"%char c) as [E|_]; [|reflexivity].
  subst c. discriminate.
Qed.

(** C2, as amended: for every store whose base path, after its leading
    separators, is empty or a plain path (non-empty segments other than
    ["."] and [".."], single separators between them, none at the end),
    and every logical name [n] for which [n] + extension is a plain path,
    [toBaseName] maps the key [ObjectPath n] back to [n]. *)
Theorem codec_roundtrip_plain (n b : string) (i : nat) :
  basePath = slashes i ++ b ->
  b = "" \/ plainPath b ->
  plainPath (pathWithExt (common s) n) ->
  toBaseName h s (ObjectPath h s n) = n.
Proof.
  intros Hbase [->|Hb] Hn.
  - rewrite append_nil_r in Hbase.
    exact (toBaseName_ObjectPath_root n i Hbase Hn).
  - now apply toBaseName_ObjectPath_slashes with b i.
Qed.

End CodecRoundTrip.


(** Plain paths used in the examples. *)
Lemma plainPath_single (seg : string) :
  plainSegment seg = true -> plainPath seg.
Proof.
  intros Hseg. exists [seg]. repeat split.
  - discriminate.
  - simpl. now rewrite Hseg.
Qed.

Lemma plainPath_a_b_txt : plainPath "a/b.txt".
Proof.
  exists ["a"; "b.txt"]. repeat split. discriminate.
Qed.

Lemma codec_roundtrip_plain_witness :
  toBaseName Sample.heap (Sample.store [] ".txt" false)
    (ObjectPath Sample.heap (Sample.store [] ".txt" false) "a/b") = "a/b".
Proof.
  apply (codec_roundtrip_plain Sample.heap (Sample.store [] ".txt" false)
           "a/b" "root" 1).
  - reflexivity.
  - right. apply plainPath_single. reflexivity.
  - exact plainPath_a_b_txt.
Defined.

(** The round trip on a store at the root of the bucket. *)
Example codec_roundtrip_root_ex :
  ObjectPath [mkURL "gs" "bkt" ""] (Sample.store [] ".txt" false) "a/b"
  = "a/b.txt" /\
  toBaseName [mkURL "gs" "bkt" ""] (Sample.store [] ".txt" false) "a/b.txt"
  = "a/b".
Proof. split; reflexivity. Qed.

Lemma leading_separators_ignored_witness :
  ObjectPath (setPath Sample.heap 0 (slashes 2 ++ "/root"))
             (Sample.store [] ".txt" false) "a"
  = ObjectPath Sample.heap (Sample.store [] ".txt" false) "a" /\
  toBaseName (setPath Sample.heap 0 (slashes 2 ++ "/root"))
             (Sample.store [] ".txt" false) "root/a.txt"
  = toBaseName Sample.heap (Sample.store [] ".txt" false) "root/a.txt" /\
  walkQuery (setPath Sample.heap 0 (slashes 2 ++ "/root"))
            (Sample.store [] ".txt" false) "p" "q"
  = walkQuery Sample.heap (Sample.store [] ".txt" false) "p" "q".
Proof.
  apply (leading_separators_ignored Sample.heap
           (Sample.store [] ".txt" false) 2 "a" "root/a.txt" "p" "q").
  simpl. lia.
Defined.

Lemma ObjectPath_plain_key_witness :
  ObjectPath [mkURL "gs" "bkt" "/root/"] (Sample.store [] ".txt" false) "a"
  = "root" ++ "/" ++ "a.txt".
Proof.
  apply (ObjectPath_plain_key [mkURL "gs" "bkt" "/root/"]
           (Sample.store [] ".txt" false) "a" "root" 1 1).
  - reflexivity.
  - apply plainPath_single. reflexivity.
  - apply plainPath_single. reflexivity.
Defined.

Lemma toBaseName_ObjectPath_plain_base_witness :
  toBaseName Sample.heap (Sample.store [] ".txt" false)
    (ObjectPath Sample.heap (Sample.store [] ".txt" false) "a") = "a".
Proof.
  apply (toBaseName_ObjectPath_plain_base Sample.heap
           (Sample.store [] ".txt" false) "a" "root" 1).
  - reflexivity.
  - apply plainPath_single. reflexivity.
  - apply plainPath_single. reflexivity.
Defined.

Lemma trailing_separator_base_witness :
  let h := [mkURL "gs" "bkt" "/root/"] in
  let s := Sample.store [] ".txt" false in
  ObjectPath h s "a" = "root" ++ "/" ++ "a.txt" /\
  toBaseName h s (ObjectPath h s "a") = "root" ++ "/" ++ "a" /\
  strings.HasPrefix (ObjectPath h s "a") (Prefix (walkQuery h s "" ""))
  = false.
Proof.
  apply (trailing_separator_base [mkURL "gs" "bkt" "/root/"]
           (Sample.store [] ".txt" false) "a" "root" "" 1 0).
  - reflexivity.
  - apply plainPath_single. reflexivity.
  - apply plainPath_single. reflexivity.
Defined.

Lemma toBaseName_other_extension_witness :
  toBaseName Sample.heap (Sample.store [] ".txt" false)
    ("root" ++ "/" ++ "a.bin") = "a.bin".
Proof.
  apply (toBaseName_other_extension Sample.heap
           (Sample.store [] ".txt" false) "a.bin").
  reflexivity.
Defined.

(** ** Object URLs *)

Section URLs.

Lemma TrimRight_no_separator_at_end (s : string) :
  forall a, strings.TrimRight s "/" <> a ++ "/".
Proof.
  induction s as [|c rest IH]; intros a.
  - simpl. destruct a; discriminate.
  - cbn [strings.TrimRight].
    destruct (strings.TrimRight rest "/") as [|d t] eqn:Ht.
    + destruct (strings.inCutset "/" c) eqn:Hc.
      * destruct a; discriminate.
      * destruct a as [|c' a']; simpl.
        -- intros Heq. injection Heq as ->. discriminate.
        -- intros Heq. injection Heq as _ Heq. destruct a'; discriminate.
    + destruct a as [|c' a']; simpl.
      * discriminate.
      * intros Heq. injection Heq as _ Heq. exact (IH a' Heq).
Qed.

Lemma TrimLeft_no_separator_at_start (s : string) :
  forall b, strings.TrimLeft s "/" <> "/" ++ b.
Proof.
  induction s as [|c rest IH]; intros b; [discriminate |].
  cbn [strings.TrimLeft].
  destruct (strings.inCutset "/" c) eqn:Hc; [apply IH |].
  intros Heq. injection Heq as -> _. discriminate.
Qed.

Variable env : Env.
Variable h : Heap.
Variable s : GSStore.

(** X14: the URL of an object is made of a left part that does not end
    with a separator, one separator, and a right part that does not
    start with one, whatever trailing separators the base URL has and
    whatever leading separators the name has. *)
Theorem ObjectURL_single_separator (name : string) :
  exists left right,
    ObjectURL env h s name = left ++ "/" ++ right /\
    left = strings.TrimRight (url_String env (deref h (baseURL s))) "/" /\
    right = strings.TrimLeft (pathWithExt (common s) name) "/" /\
    (forall a, left <> a ++ "/") /\
    (forall b, right <> "/" ++ b).
Proof.
  eexists _, _. split; [reflexivity |]. split; [reflexivity |].
  split; [reflexivity |]. split.
  - apply TrimRight_no_separator_at_end.
  - apply TrimLeft_no_separator_at_start.
Qed.

(** X15: leading separators of a name do not change its URL. *)
Theorem ObjectURL_ignores_leading_separators (k : nat) (name : string) :
  ObjectURL env h s (slashes k ++ name) = ObjectURL env h s name.
Proof.
  unfold ObjectURL, pathWithExt.
  now rewrite append_assoc, TrimLeft_slashes.
Qed.

End URLs.

(** ** Sub-stores of plain paths *)

Section SubStorePlain.

Variable env : Env.
Variable h : Heap.
Variable s : GSStore.

(** X16: for a rooted plain base path [/b] and a plain segment [x] (with
    any trailing separators), the sub-store's path is [/b/x], and a name
    in the sub-store has the key that [x/name] has in the parent. *)
Theorem SubStore_plain_keys (parsed : URL) (c : Client) (b x : string)
        (i k : nat) :
  baseURL s < List.length h ->
  url_Parse env (url_String env (deref h (baseURL s))) = inl parsed ->
  Path parsed = Path (deref h (baseURL s)) ->
  storage_NewClient env context_Background = inl c ->
  Path (deref h (baseURL s)) = slashes (S i) ++ b ->
  plainPath b -> plainPath x ->
  exists (s' : GSStore) (h' : Heap),
    SubStore env h s (x ++ slashes k) = (inl s', h') /\
    Path (deref h' (baseURL s')) = "/" ++ b ++ "/" ++ x /\
    (forall n,
        plainPath (pathWithExt (common s) n) ->
        ObjectPath h' s' n = ObjectPath h s (x ++ "/" ++ n)).
Proof.
  intros Hvalid Hparse Hpath Hclient Hbase Hb Hx.
  rewrite (SubStore_result env h s _ parsed c Hparse Hclient).
  eexists _, _. split; [reflexivity |].
  assert (Hnew : Path (deref
                   (setPath (h ++ [parsed])%list (List.length h)
                      (path.Join [Path parsed; x ++ slashes k]))
                   (List.length h)) = "/" ++ b ++ "/" ++ x).
  { rewrite deref_setPath_same by (rewrite length_app; simpl; lia).
    cbn [Path]. rewrite Hpath, Hbase.
    rewrite <- (append_nil_r b) at 1.
    now apply (Join2_plain_rooted b x i 0 k). }
  split; [exact Hnew |].
  intros n Hn. unfold ObjectPath. cbn [baseURL common].
  rewrite Hnew, Hbase.
  change ("/" ++ b ++ "/" ++ x) with (slashes 1 ++ (b ++ "/" ++ x)).
  rewrite !TrimLeft_slashes.
  rewrite <- (append_nil_r (b ++ "/" ++ x)) at 1.
  rewrite <- (append_nil_r b) at 2.
  rewrite !TrimLeft_plain by (assumption || now apply plainPath_join).
  unfold pathWithExt in *. cbn [extension].
  rewrite <- (append_nil_r (n ++ extension (common s))) at 1.
  rewrite (Join2_plain (b ++ "/" ++ x) _ 0 0)
    by (assumption || now apply plainPath_join).
  replace ((x ++ "/" ++ n) ++ extension (common s))
    with ((x ++ "/" ++ n ++ extension (common s)) ++ slashes 0)
    by (simpl; now rewrite append_nil_r, !append_assoc).
  rewrite (Join2_plain b _ 0 0) by (assumption || now apply plainPath_join).
  now rewrite !append_assoc.
Qed.

End SubStorePlain.

Lemma SubStore_plain_keys_witness :
  exists (s' : GSStore) (h' : Heap),
    SubStore (Sample.env []) Sample.heap (Sample.store [] ".txt" false)
             ("x" ++ slashes 1) = (inl s', h') /\
    Path (deref h' (baseURL s')) = "/" ++ "root" ++ "/" ++ "x" /\
    (forall n,
        plainPath (pathWithExt (common (Sample.store [] ".txt" false)) n) ->
        ObjectPath h' s' n
        = ObjectPath Sample.heap (Sample.store [] ".txt" false)
                     ("x" ++ "/" ++ n)).
Proof.
  apply (SubStore_plain_keys (Sample.env []) Sample.heap
           (Sample.store [] ".txt" false) (mkURL "gs" "bkt" "/root")
           (Sample.bucketClient []) "root" "x" 0 1).
  - simpl. lia.
  - reflexivity.
  - reflexivity.
  - reflexivity.
  - reflexivity.
  - apply plainPath_single. reflexivity.
  - apply plainPath_single. reflexivity.
Defined.

(** ** More on enumeration *)

Section StringSplits.

Lemma prefix_decompose (a : string) :
  forall t, String.prefix a t = true -> exists r, t = a ++ r.
Proof.
  induction a as [|c a IH]; intros t Hp.
  - now exists t.
  - destruct t as [|d t]; [discriminate |].
    cbn [String.prefix] in Hp.
    destruct (ascii_dec c d) as [->|_]; [|discriminate].
    destruct (IH t Hp) as [r ->]. now exists r.
Qed.

Lemma substring_split (t : string) :
  forall n, n <= String.length t ->
            t = substring 0 n t ++ substring n (String.length t - n) t.
Proof.
  induction t as [|c t IH]; intros n Hn.
  - destruct n; reflexivity.
  - destruct n as [|n].
    + simpl. now rewrite substring_all.
    + simpl in Hn. simpl. f_equal. apply IH. lia.
Qed.

(** [strings.TrimSuffix] either changes nothing or removes the suffix. *)
Lemma TrimSuffix_cases (t suf : string) :
  strings.TrimSuffix t suf = t \/
  exists a, t = a ++ suf /\ strings.TrimSuffix t suf = a.
Proof.
  unfold strings.TrimSuffix, strings.HasSuffix.
  destruct (String.length suf <=? String.length t)%nat eqn:Hlen;
    [|now left].
  apply Nat.leb_le in Hlen. simpl.
  destruct (String.eqb_spec
              (substring (String.length t - String.length suf)
                         (String.length suf) t) suf) as [Heq|_];
    [|now left].
  right. exists (substring 0 (String.length t - String.length suf) t).
  split; [|reflexivity].
  pose proof (substring_split t (String.length t - String.length suf)
                ltac:(lia)) as Hs.
  replace (String.length t - (String.length t - String.length suf))
    with (String.length suf) in Hs by lia.
  now rewrite Heq in Hs.
Qed.

Lemma noSlash_app_slash (y z : string) :
  noSlash (y ++ String path.slash z) = false.
Proof.
  induction y as [|c y IH]; [reflexivity |].
  simpl. rewrite IH. apply andb_false_r.
Qed.

(** A suffix without a separator cannot reach into a part that ends with
    a separator. *)
Lemma suffix_after_separator (x : string) :
  forall r a ext,
    noSlash ext = true ->
    (x ++ "/") ++ r = a ++ ext ->
    exists r', a = (x ++ "/") ++ r'.
Proof.
  induction x as [|c x IH]; intros r a ext Hext Heq.
  - destruct a as [|d a].
    + simpl in Heq. subst ext. discriminate.
    + simpl in Heq. injection Heq as <- _. now exists a.
  - destruct a as [|d a].
    + cbn [append] in Heq. subst ext.
      cbn [noSlash] in Hext. apply andb_true_iff in Hext as [_ Hext].
      rewrite append_assoc in Hext.
      change ("/" ++ r) with (String path.slash r) in Hext.
      now rewrite noSlash_app_slash in Hext.
    + simpl in Heq. injection Heq as <- Heq.
      destruct (IH r a ext Hext Heq) as [r' ->]. now exists r'.
Qed.

Lemma noSlash_last (seg : string) :
  seg <> "" -> noSlash seg = true ->
  exists q c, seg = q ++ String c "" /\ path.isSlash c = false.
Proof.
  induction seg as [|a seg IH]; intros Hne Hns; [congruence |].
  apply noSlash_cons in Hns as [Ha Hns].
  destruct seg as [|b seg].
  - exists "", a. now split.
  - destruct (IH ltac:(discriminate) Hns) as (q & c & Heq & Hc).
    exists (String a q), c. split; [|exact Hc]. simpl. now rewrite <- Heq.
Qed.

Lemma plainPath_last (p : string) :
  plainPath p -> exists q c, p = q ++ String c "" /\ path.isSlash c = false.
Proof.
  intros (segs & Hne & Hp & ->). unfold strings.Join.
  induction segs as [|seg segs IH]; [congruence |].
  simpl in Hp. apply andb_true_iff in Hp as [Hseg Hp].
  destruct segs as [|seg2 segs].
  - apply plainSegment_inv in Hseg as (Hn & Hns & _).
    now apply noSlash_last.
  - destruct (IH ltac:(discriminate) Hp) as (q & c & Heq & Hc).
    exists (seg ++ "/" ++ q), c. split; [|exact Hc].
    change (String.concat "/" (seg :: seg2 :: segs))
      with (seg ++ "/" ++ String.concat "/" (seg2 :: segs)).
    rewrite Heq. now rewrite !append_assoc.
Qed.

Lemma endsWithSlash_snoc (a : string) (c : ascii) :
  endsWithSlash (a ++ String c "") = path.isSlash c.
Proof.
  unfold endsWithSlash. rewrite length_append. simpl String.length.
  replace (String.length a + 1 - 1) with (String.length a) by lia.
  rewrite substring_append_r. simpl.
  unfold path.isSlash, path.slash.
  destruct (Ascii.eqb_spec c "/"%char) as [->|Hne]; reflexivity.
Qed.

Lemma endsWithSlash_slashes (a : string) (k : nat) :
  endsWithSlash (a ++ slashes (S k)) = true.
Proof.
  rewrite <- slashes_snoc, <- append_assoc.
  change "/" with (String path.slash "").
  now rewrite endsWithSlash_snoc.
Qed.

Lemma endsWithSlash_plain (p : string) :
  plainPath p -> endsWithSlash p = false.
Proof.
  intros Hp. destruct (plainPath_last p Hp) as (q & c & -> & Hc).
  now rewrite endsWithSlash_snoc.
Qed.

End StringSplits.

Section Walks.

Context {St : Type}.
Variable ctx : Context.
Variable h : Heap.
Variable s : GSStore.

Let basePath : string := Path (deref h (baseURL s)).
Let nameOf (a : ObjectAttrs) : string := toBaseName h s (Name a).
Let listing (prefix sp : string) : ObjectIterator :=
  Bucket_Objects (client s) ctx (Host (deref h (baseURL s)))
                 (walkQuery h s prefix sp).

(** X17: when the callback returns [nil] on every listed object, the
    walk visits all of them in the order of the listing and returns what
    the iterator ends with: [nil] for [iterator.Done], any other iterator
    error as it is. *)
Theorem WalkFrom_complete (prefix sp : string) (f : visitor St)
        (st st1 : St) :
  visitAll f (map nameOf (pending (listing prefix sp))) st = Some st1 ->
  WalkFrom ctx h s prefix sp f st
  = mkWalkResult
      match final (listing prefix sp) with
      | iterator_Done => None
      | _ => Some (final (listing prefix sp))
      end
      st1 (map nameOf (pending (listing prefix sp))).
Proof.
  intros Hall. unfold WalkFrom. fold (listing prefix sp).
  now apply walkLoop_all.
Qed.

(** X18: whatever the callback does, the names it is invoked with are
    the names of the first [k] listed objects, in the order of the
    listing, for some [k]: no object is skipped before a visited one, and
    none is visited twice. *)
Theorem WalkFrom_visits_initial_segment (prefix sp : string)
        (f : visitor St) (st : St) :
  exists k,
    k <= List.length (pending (listing prefix sp)) /\
    visited (WalkFrom ctx h s prefix sp f st)
    = map nameOf (firstn k (pending (listing prefix sp))).
Proof.
  unfold WalkFrom. fold (listing prefix sp).
  destruct (walkLoop_visited_firstn h s f (final (listing prefix sp))
              (pending (listing prefix sp)) st) as [k Hk].
  exists (Nat.min k (List.length (pending (listing prefix sp)))).
  split; [apply Nat.le_min_r |].
  rewrite Hk. f_equal.
  destruct (Nat.le_ge_cases k (List.length (pending (listing prefix sp))))
    as [Hle|Hge].
  - now rewrite Nat.min_l.
  - rewrite Nat.min_r by exact Hge.
    now rewrite !firstn_all2 by lia.
Qed.

(** X19: the query has a start offset exactly when a starting point is
    given; its prefix is never empty and does not depend on the starting
    point. *)
Theorem walkQuery_offset_and_prefix (prefix sp : string) :
  (StartOffset (walkQuery h s prefix sp) = "" <-> sp = "") /\
  Prefix (walkQuery h s prefix sp) <> "" /\
  Prefix (walkQuery h s prefix sp) = Prefix (walkQuery h s prefix "").
Proof.
  assert (Hne : Prefix (walkQuery h s prefix "") <> "").
  { unfold walkQuery. cbn [negb String.eqb Prefix StartOffset].
    destruct (String.eqb prefix ""); cbn [negb Prefix].
    - destruct (strings.TrimLeft (Path (deref h (baseURL s))) "/");
        discriminate.
    - assert (Hj : filepath.Join
                     [strings.TrimLeft (Path (deref h (baseURL s))) "/" ++ "/";
                      prefix] <> "").
      { unfold filepath.Join. rewrite Join2_empty_iff. intros [Habs _].
        destruct (strings.TrimLeft (Path (deref h (baseURL s))) "/");
          discriminate. }
      destruct (endsWithSlash prefix); cbn [Prefix]; [|exact Hj].
      destruct (filepath.Join _); discriminate. }
  assert (Hp : Prefix (walkQuery h s prefix sp)
               = Prefix (walkQuery h s prefix "")).
  { unfold walkQuery. cbn [negb String.eqb].
    destruct (String.eqb sp ""); reflexivity. }
  split; [|split; [now rewrite Hp | exact Hp]].
  assert (Hoff : StartOffset (walkQuery h s prefix "") = "").
  { unfold walkQuery. cbn [negb String.eqb].
    destruct (String.eqb prefix ""); cbn [negb]; [reflexivity |].
    destruct (endsWithSlash prefix); reflexivity. }
  split.
  - intros Hs. destruct (String.eqb_spec sp "") as [|Hsp]; [assumption |].
    exfalso. revert Hs. unfold walkQuery.
    apply String.eqb_neq in Hsp. rewrite Hsp. cbn [negb StartOffset].
    unfold filepath.Join. rewrite Join2_empty_iff. intros [Habs _].
    revert Habs. apply Hne.
  - intros ->. exact Hoff.
Qed.

Lemma walkQuery_unfold (prefix sp : string) :
  walkQuery h s prefix sp
  = let P :=
      if String.eqb prefix "" then strings.TrimLeft basePath "/" ++ "/"
      else if endsWithSlash prefix
           then filepath.Join [strings.TrimLeft basePath "/" ++ "/"; prefix]
                  ++ "/"
           else filepath.Join [strings.TrimLeft basePath "/" ++ "/"; prefix]
    in
    mkQuery P (if String.eqb sp "" then "" else filepath.Join [P; sp]).
Proof.
  unfold walkQuery. fold basePath.
  destruct (String.eqb prefix ""), (endsWithSlash prefix),
    (String.eqb sp ""); reflexivity.
Qed.

(** X20: on a store whose base path is a plain path [b] after any
    leading separators, a plain prefix [p] gives the query prefix [b/p],
    the prefix [p/] gives [b/p/], and a plain starting point [sp] gives
    the start offset [b/sp], or [b/p/sp] under either prefix. *)
Theorem walkQuery_plain (b p sp : string) (i k : nat) :
  basePath = slashes i ++ b ->
  plainPath b -> plainPath p -> plainPath sp ->
  Prefix (walkQuery h s p "") = b ++ "/" ++ p /\
  Prefix (walkQuery h s (p ++ slashes (S k)) "") = b ++ "/" ++ p ++ "/" /\
  StartOffset (walkQuery h s "" sp) = b ++ "/" ++ sp /\
  StartOffset (walkQuery h s p sp) = b ++ "/" ++ p ++ "/" ++ sp /\
  StartOffset (walkQuery h s (p ++ slashes (S k)) sp)
  = b ++ "/" ++ p ++ "/" ++ sp.
Proof.
  intros Hbase Hb Hp Hsp.
  assert (Ht : strings.TrimLeft basePath "/" = b).
  { rewrite Hbase, TrimLeft_slashes.
    rewrite <- (append_nil_r b) at 1.
    rewrite TrimLeft_plain by exact Hb. apply append_nil_r. }
  assert (Hp0 : String.eqb p "" = false).
  { rewrite <- (append_nil_r p). apply String.eqb_neq.
    now apply plainPath_nonempty. }
  assert (Hpk : String.eqb (p ++ slashes (S k)) "" = false)
    by (apply String.eqb_neq; now apply plainPath_nonempty).
  assert (Hsp0 : String.eqb sp "" = false).
  { rewrite <- (append_nil_r sp). apply String.eqb_neq.
    now apply plainPath_nonempty. }
  assert (Hj0 : filepath.Join [b ++ "/"; p] = b ++ "/" ++ p).
  { rewrite <- (append_nil_r p) at 1. now apply (Join2_plain b p 1 0). }
  assert (Hjk : filepath.Join [b ++ "/"; p ++ slashes (S k)] = b ++ "/" ++ p)
    by now apply (Join2_plain b p 1 (S k)).
  assert (Hbp : plainPath (b ++ "/" ++ p)) by now apply plainPath_join.
  assert (Hj2 : forall j, filepath.Join [(b ++ "/" ++ p) ++ slashes j; sp]
                          = b ++ "/" ++ p ++ "/" ++ sp).
  { intros j. rewrite <- (append_nil_r sp) at 1.
    unfold filepath.Join.
    etransitivity;
      [apply (Join2_plain (b ++ "/" ++ p) sp j 0); assumption |].
    now rewrite !append_assoc. }
  assert (Hj3 : filepath.Join [b ++ "/"; sp] = b ++ "/" ++ sp).
  { rewrite <- (append_nil_r sp) at 1. now apply (Join2_plain b sp 1 0). }
  rewrite !walkQuery_unfold. cbv zeta. rewrite Ht.
  change (String.eqb "" "") with true. cbv iota.
  rewrite Hp0, Hpk, Hsp0, endsWithSlash_slashes, (endsWithSlash_plain p Hp).
  cbn [Prefix StartOffset]. rewrite Hj0, Hjk, Hj3.
  repeat split.
  - now rewrite !append_assoc.
  - rewrite <- (append_nil_r (b ++ "/" ++ p)) at 1. apply (Hj2 0).
  - apply (Hj2 1).
Qed.

(** X21: on such a store with an extension that has no separator in it,
    and a backend that honours the query, every name visited by a walk
    under the prefix [p/] begins with [p/]. *)
Theorem WalkFrom_names_under_prefix (b p sp : string) (i k : nat)
        (f : visitor St) (st : St) :
  basePath = slashes i ++ b ->
  plainPath b -> plainPath p ->
  noSlash (extension (common s)) = true ->
  honoursQuery (client s) ->
  forall n,
    In n (visited (WalkFrom ctx h s (p ++ slashes (S k)) sp f st)) ->
    strings.HasPrefix n (p ++ "/") = true.
Proof.
  intros Hbase Hb Hp Hext Hq n Hin.
  assert (Ht : strings.TrimLeft basePath "/" = b).
  { rewrite Hbase, TrimLeft_slashes.
    rewrite <- (append_nil_r b) at 1.
    rewrite TrimLeft_plain by exact Hb. apply append_nil_r. }
  assert (Hprefix : Prefix (walkQuery h s (p ++ slashes (S k)) sp)
                    = (b ++ "/" ++ p) ++ "/").
  { assert (Hj : filepath.Join [b ++ "/"; p ++ slashes (S k)]
                 = b ++ "/" ++ p)
      by now apply (Join2_plain b p 1 (S k)).
    assert (Hpne : String.eqb (p ++ slashes (S k)) "" = false)
      by (apply String.eqb_neq; now apply plainPath_nonempty).
    rewrite walkQuery_unfold. cbv zeta.
    rewrite Ht, Hpne, endsWithSlash_slashes. cbn [Prefix].
    now rewrite Hj. }
  unfold WalkFrom in Hin.
  apply walkLoop_visited in Hin as (a & Ha & ->).
  pose proof (proj1 (Hq _ _ _ _ Ha)) as Hpre.
  rewrite Hprefix in Hpre. unfold strings.HasPrefix in Hpre.
  apply prefix_decompose in Hpre as [r Hkey].
  assert (Htrim : exists r',
             strings.TrimSuffix (Name a) (pathWithExt (common s) "")
             = ((b ++ "/" ++ p) ++ "/") ++ r').
  { destruct (TrimSuffix_cases (Name a) (pathWithExt (common s) ""))
      as [Hsame|(t & Ht' & Htrim)].
    - rewrite Hsame. now exists r.
    - rewrite Htrim. rewrite Hkey in Ht'.
      now apply (suffix_after_separator (b ++ "/" ++ p) r t
                   (pathWithExt (common s) "") Hext). }
  destruct Htrim as [r' Htrim].
  unfold toBaseName. fold basePath. rewrite Ht, Htrim.
  replace (((b ++ "/" ++ p) ++ "/") ++ r')
    with ((b ++ "/") ++ (p ++ "/") ++ r')
    by (now rewrite !append_assoc).
  rewrite TrimPrefix_append. unfold strings.HasPrefix.
  apply prefix_append.
Qed.

(** X22: on such a store, when the objects listed for a walk are the
    keys of plain names, and the callback returns [nil] on each of them,
    [Walk] visits exactly those names, in that order, and returns
    [nil]. *)
Theorem Walk_lists_written_names (b prefix : string) (i : nat)
        (names : list string) (f : visitor St) (st st1 : St) :
  basePath = slashes i ++ b ->
  plainPath b ->
  (forall n, In n names -> plainPath (pathWithExt (common s) n)) ->
  pending (listing prefix "")
  = map (fun n => mkObjectAttrs (ObjectPath h s n)) names ->
  final (listing prefix "") = iterator_Done ->
  visitAll f names st = Some st1 ->
  Walk ctx h s prefix f st = mkWalkResult None st1 names.
Proof.
  intros Hbase Hb Hnames Hpending Hfinal Hall.
  assert (Hmap : map nameOf (pending (listing prefix "")) = names).
  { rewrite Hpending, map_map. cbn [Name].
    clear Hpending Hall. induction names as [|n names IH]; [reflexivity |].
    simpl. f_equal.
    - unfold nameOf. cbn [Name].
      apply toBaseName_ObjectPath_slashes with b i; try assumption.
      apply Hnames. now left.
    - apply IH. intros m Hm. apply Hnames. now right. }
  unfold Walk, WalkFrom. fold (listing prefix "").
  rewrite (walkLoop_all h s f (final (listing prefix ""))
             (pending (listing prefix "")) st st1)
    by (fold nameOf; now rewrite Hmap).
  fold nameOf. now rewrite Hmap, Hfinal.
Qed.

End Walks.

Lemma WalkFrom_complete_witness :
  WalkFrom 0 Sample.heap (Sample.store Sample.tenKeys ".txt" false) "" ""
           Sample.count 0
  = mkWalkResult None 10
      ["01"; "02"; "03"; "04"; "05"; "06"; "07"; "08"; "09"; "10"].
Proof.
  apply (WalkFrom_complete 0 Sample.heap
           (Sample.store Sample.tenKeys ".txt" false) "" "" Sample.count 0 10).
  reflexivity.
Defined.

Lemma walkQuery_plain_witness :
  let s := Sample.store Sample.tenKeys ".txt" false in
  Prefix (walkQuery Sample.heap s "sub" "") = "root" ++ "/" ++ "sub" /\
  Prefix (walkQuery Sample.heap s ("sub" ++ slashes 1) "")
  = "root" ++ "/" ++ "sub" ++ "/" /\
  StartOffset (walkQuery Sample.heap s "" "04") = "root" ++ "/" ++ "04" /\
  StartOffset (walkQuery Sample.heap s "sub" "04")
  = "root" ++ "/" ++ "sub" ++ "/" ++ "04" /\
  StartOffset (walkQuery Sample.heap s ("sub" ++ slashes 1) "04")
  = "root" ++ "/" ++ "sub" ++ "/" ++ "04".
Proof.
  apply (walkQuery_plain Sample.heap
           (Sample.store Sample.tenKeys ".txt" false) "root" "sub" "04" 1 0).
  - reflexivity.
  - apply plainPath_single. reflexivity.
  - apply plainPath_single. reflexivity.
  - apply plainPath_single. reflexivity.
Defined.

Lemma WalkFrom_names_under_prefix_witness :
  In "sub/a"
     (visited
        (WalkFrom 0 Sample.heap
           (Sample.store ["root/sub/a.txt"; "root/sub/b.txt"; "root/t.txt"]
                         ".txt" false)
           ("sub" ++ slashes 1) "" Sample.count 0)) /\
  strings.HasPrefix "sub/a" ("sub" ++ "/") = true.
Proof.
  split; [left; reflexivity |].
  apply (WalkFrom_names_under_prefix 0 Sample.heap
           (Sample.store ["root/sub/a.txt"; "root/sub/b.txt"; "root/t.txt"]
                         ".txt" false)
           "root" "sub" "" 1 0 Sample.count 0).
  - reflexivity.
  - apply plainPath_single. reflexivity.
  - apply plainPath_single. reflexivity.
  - reflexivity.
  - apply bucketClient_honoursQuery.
  - left. reflexivity.
Defined.

Example WalkFrom_under_prefix_ex :
  visited (WalkFrom 0 Sample.heap
             (Sample.store ["root/sub/a.txt"; "root/sub/b.txt"; "root/t.txt"]
                           ".txt" false)
             "sub/" "" Sample.count 0)
  = ["sub/a"; "sub/b"].
Proof. reflexivity. Qed.

Lemma Walk_lists_written_names_witness :
  Walk 0 Sample.heap (Sample.store ["root/a.txt"; "root/b.txt"] ".txt" false)
       "" Sample.count 0
  = mkWalkResult None 2 ["a"; "b"].
Proof.
  apply (Walk_lists_written_names 0 Sample.heap
           (Sample.store ["root/a.txt"; "root/b.txt"] ".txt" false)
           "root" "" 1 ["a"; "b"] Sample.count 0 2).
  - reflexivity.
  - apply plainPath_single. reflexivity.
  - intros n [<-|[<-|[]]]; apply plainPath_single; reflexivity.
  - reflexivity.
  - reflexivity.
  - reflexivity.
Defined.

(** ** The shape of cleaned paths *)

Section CleanShape.

Import path.

Lemma noDoubleSlash_noslash (el : list ascii) :
  Forall (fun a => isSlash a = false) el -> noDoubleSlash el = true.
Proof.
  induction 1 as [|a el Ha _ IH]; [reflexivity |].
  cbn [noDoubleSlash]. now rewrite Ha, IH.
Qed.

Lemma noDoubleSlash_app_noslash (l el : list ascii) :
  noDoubleSlash l = true ->
  Forall (fun a => isSlash a = false) el ->
  noDoubleSlash (l ++ el) = true.
Proof.
  intros Hl Hel. induction l as [|a tl IH].
  - now apply noDoubleSlash_noslash.
  - cbn [noDoubleSlash app] in *.
    apply andb_true_iff in Hl as [Hpair Htl].
    rewrite (IH Htl), andb_true_r.
    destruct tl as [|b tl]; [|exact Hpair].
    destruct Hel as [|e el He _]; [exact Hpair |].
    cbn [app]. now rewrite He, andb_false_r.
Qed.

Lemma noDoubleSlash_app_slash (l : list ascii) :
  noDoubleSlash l = true -> lastIsSlash l = false ->
  noDoubleSlash (l ++ [slash]) = true.
Proof.
  unfold lastIsSlash. induction l as [|a tl IH]; intros Hl Hlast;
    [reflexivity |].
  cbn [noDoubleSlash app] in *.
  apply andb_true_iff in Hl as [Hpair Htl].
  destruct tl as [|b tl].
  - cbn [last] in Hlast. cbn [app noDoubleSlash]. now rewrite Hlast.
  - rewrite (IH Htl Hlast), andb_true_r. exact Hpair.
Qed.

Lemma noDoubleSlash_firstn (l : list ascii) :
  forall w, noDoubleSlash l = true -> noDoubleSlash (firstn w l) = true.
Proof.
  induction l as [|a tl IH]; intros w Hl; [now destruct w |].
  destruct w as [|w]; [reflexivity |].
  cbn [noDoubleSlash firstn] in *.
  apply andb_true_iff in Hl as [Hpair Htl].
  rewrite (IH w Htl), andb_true_r.
  destruct tl as [|b tl]; [now destruct w |].
  destruct w as [|w]; [cbn [firstn]; now rewrite andb_false_r | exact Hpair].
Qed.

Lemma noDoubleSlash_nth (l : list ascii) :
  forall i d d',
    noDoubleSlash l = true -> S i < List.length l ->
    isSlash (nth (S i) l d) = true -> isSlash (nth i l d') = false.
Proof.
  induction l as [|a tl IH]; intros i d d' Hl Hlen Hs; [simpl in Hlen; lia |].
  cbn [noDoubleSlash] in Hl. apply andb_true_iff in Hl as [Hpair Htl].
  destruct i as [|i].
  - destruct tl as [|b tl]; [simpl in Hlen; lia |].
    cbn [nth] in *. rewrite Hs, andb_true_r in Hpair.
    now apply negb_true_iff in Hpair.
  - cbn [nth]. apply (IH i d d' Htl); [simpl in Hlen; lia |]. exact Hs.
Qed.

Lemma last_firstn (l : list ascii) :
  forall w d d',
    w < List.length l -> last (firstn (S w) l) d = nth w l d'.
Proof.
  induction l as [|a tl IH]; intros w d d' Hw; [simpl in Hw; lia |].
  destruct w as [|w]; [reflexivity |].
  cbn [firstn nth]. simpl in Hw.
  destruct tl as [|b tl]; [simpl in Hw; lia |].
  change (last (a :: firstn (S w) (b :: tl)) d)
    with (last (firstn (S w) (b :: tl)) d).
  apply IH. lia.
Qed.

Lemma last_app_nonempty (l el : list ascii) (d : ascii) :
  el <> [] -> last (l ++ el) d = last el d.
Proof.
  intros Hne. induction l as [|a tl IH]; [reflexivity |].
  cbn [app]. destruct (tl ++ el)%list eqn:Happ.
  - apply app_eq_nil in Happ as [_ ->]. congruence.
  - exact IH.
Qed.

Lemma last_noslash (el : list ascii) :
  el <> [] -> Forall (fun a => isSlash a = false) el ->
  isSlash (last el dot) = false.
Proof.
  intros Hne Hel. induction Hel as [|a el Ha Hel IH]; [congruence |].
  destruct el as [|b el]; [exact Ha |].
  change (last (a :: b :: el) dot) with (last (b :: el) dot).
  apply IH. discriminate.
Qed.

Lemma copyElement_chars (rest : string) :
  Forall (fun a => isSlash a = false) (fst (copyElement rest)).
Proof.
  induction rest as [|c rest IH]; [constructor |].
  cbn [copyElement]. destruct (isSlash c) eqn:Hc; [constructor |].
  destruct (copyElement rest) as [el tl]. cbn [fst] in *.
  now constructor.
Qed.

(** Where the backtracking stops: not below [dotdot], and at [dotdot] or
    on a separator. *)
Lemma backtrack_spec (buf : list ascii) (dotdot : nat) :
  forall w,
    dotdot <= w ->
    dotdot <= backtrack buf dotdot w <= w /\
    (backtrack buf dotdot w = dotdot \/
     isSlash (nth (backtrack buf dotdot w) buf slash) = true).
Proof.
  induction w as [|w IH]; intros Hw.
  - cbn [backtrack]. split; [lia | left; lia].
  - cbn [backtrack].
    destruct (dotdot <? S w)%nat eqn:Hlt; cbn [andb].
    + apply Nat.ltb_lt in Hlt.
      destruct (isSlash (nth (S w) buf slash)) eqn:Hs; cbn [negb].
      * split; [lia | now right].
      * destruct (IH ltac:(lia)) as [Hb Hc]. split; [lia | exact Hc].
    + apply Nat.ltb_ge in Hlt. split; [lia | left; lia].
Qed.

Lemma firstn_firstn_le (l : list ascii) (a b : nat) :
  a <= b -> firstn a (firstn b l) = firstn a l.
Proof. intros Hab. rewrite firstn_firstn. now rewrite Nat.min_l. Qed.

Lemma firstn_app_le (l el : list ascii) (a : nat) :
  a <= List.length l -> firstn a (l ++ el) = firstn a l.
Proof.
  intros Ha. rewrite firstn_app.
  replace (a - List.length l) with 0 by lia.
  cbn [firstn]. apply app_nil_r.
Qed.

End CleanShape.

Section CleanInvariant.

Import path.

Lemma cleanInv_backtrack (rooted : bool) (out : list ascii) (dotdot : nat) :
  cleanInv rooted out dotdot -> dotdot < List.length out ->
  cleanInv rooted
    (firstn (backtrack out dotdot (List.length out - 1)) out) dotdot.
Proof.
  intros (I1 & I2 & I3 & I4) Hlt.
  destruct (backtrack_spec out dotdot (List.length out - 1) ltac:(lia))
    as [[Hlo Hhi] Hstop].
  set (w := backtrack out dotdot (List.length out - 1)) in *.
  assert (Hlen : List.length (firstn w out) = w)
    by (rewrite length_firstn; lia).
  repeat split.
  - rewrite Hlen. exact Hlo.
  - now apply noDoubleSlash_firstn.
  - destruct Hstop as [Hw|Hs].
    + rewrite Hw in H. destruct (I4 H) as [_ Hd].
      rewrite Hw, Hd in *. destruct out as [|a tl]; [simpl in Hlt; lia |].
      cbn [firstn] in *. unfold lastIsSlash in H. cbn [last] in H.
      apply Ascii.eqb_eq in H. now subst a.
    + destruct w as [|w'].
      * discriminate H.
      * unfold lastIsSlash in H.
        rewrite (last_firstn out w' dot slash) in H by lia.
        rewrite (noDoubleSlash_nth out w' slash slash I2) in H
          by (lia || assumption).
        discriminate.
  - destruct Hstop as [Hw|Hs].
    + rewrite Hw in H. exact (proj1 (I4 H)).
    + destruct w as [|w'].
      * discriminate H.
      * unfold lastIsSlash in H.
        rewrite (last_firstn out w' dot slash) in H by lia.
        rewrite (noDoubleSlash_nth out w' slash slash I2) in H
          by (lia || assumption).
        discriminate.
  - rewrite firstn_firstn_le in H by exact Hlo. exact (proj1 (I4 H)).
  - rewrite firstn_firstn_le in H by exact Hlo. exact (proj2 (I4 H)).
Qed.

Lemma cleanInv_dotdot (out : list ascii) (dotdot : nat) :
  cleanInv false out dotdot ->
  let out1 := if (0 <? List.length out)%nat
              then (out ++ [slash])%list else out in
  let out2 := (out1 ++ [dot; dot])%list in
  cleanInv false out2 (List.length out2).
Proof.
  intros (I1 & I2 & I3 & I4) out1 out2.
  assert (Hlast : lastIsSlash out = false).
  { destruct (lastIsSlash out) eqn:Hl; [|reflexivity].
    destruct (I3 eq_refl) as [_ Habs]. discriminate. }
  assert (H1 : noDoubleSlash out1 = true).
  { subst out1. destruct (0 <? List.length out)%nat; [|exact I2].
    now apply noDoubleSlash_app_slash. }
  assert (H2 : lastIsSlash out2 = false).
  { unfold lastIsSlash. subst out2.
    rewrite last_app_nonempty by discriminate. reflexivity. }
  repeat split.
  - lia.
  - subst out2. apply noDoubleSlash_app_noslash; [exact H1 |].
    repeat constructor.
  - congruence.
  - congruence.
  - rewrite firstn_all in H. congruence.
  - rewrite firstn_all in H. congruence.
Qed.

Lemma cleanInv_element (rooted : bool) (out el : list ascii) (dotdot : nat) :
  cleanInv rooted out dotdot ->
  el <> [] -> Forall (fun a => isSlash a = false) el ->
  cleanInv rooted (withSlash rooted out ++ el)%list dotdot.
Proof.
  intros (I1 & I2 & I3 & I4) Hne Hel.
  assert (Hw : exists sep, withSlash rooted out = (out ++ sep)%list /\
                           noDoubleSlash (out ++ sep) = true).
  { unfold withSlash.
    destruct ((rooted && negb (List.length out =? 1)%nat)
              || (negb rooted && negb (List.length out =? 0)%nat)) eqn:Hc.
    - exists [slash]. split; [reflexivity |].
      apply noDoubleSlash_app_slash; [exact I2 |].
      destruct (lastIsSlash out) eqn:Hl; [|reflexivity].
      destruct (I3 eq_refl) as [-> ->]. discriminate Hc.
    - exists []. now rewrite app_nil_r. }
  destruct Hw as (sep & Hw & Hnd).
  assert (Hlast : lastIsSlash (withSlash rooted out ++ el) = false).
  { unfold lastIsSlash. rewrite last_app_nonempty by exact Hne.
    now apply last_noslash. }
  assert (Hfirst : firstn dotdot (withSlash rooted out ++ el)
                   = firstn dotdot out).
  { rewrite Hw, <- app_assoc. now apply firstn_app_le. }
  repeat split.
  - rewrite Hw, !length_app. lia.
  - rewrite Hw. now apply noDoubleSlash_app_noslash.
  - congruence.
  - congruence.
  - rewrite Hfirst in H. exact (proj1 (I4 H)).
  - rewrite Hfirst in H. exact (proj2 (I4 H)).
Qed.

(** The loop keeps its invariant. *)
Lemma cleanLoop_inv (fuel : nat) :
  forall rooted rest out dotdot,
    cleanInv rooted out dotdot ->
    exists dotdot',
      cleanInv rooted (cleanLoop fuel rooted rest out dotdot) dotdot'.
Proof.
  induction fuel as [|fuel IH]; intros rooted rest out dotdot Hinv;
    [now exists dotdot |].
  destruct rest as [|c rest1]; [now exists dotdot |].
  cbn [cleanLoop].
  destruct (isSlash c) eqn:Hc; [now apply IH |].
  destruct (isDot c && atEndOrSlash rest1); [now apply IH |].
  destruct (isDot c && _).
  - destruct (dotdot <? List.length out)%nat eqn:Hlt.
    + apply Nat.ltb_lt in Hlt. apply IH. now apply cleanInv_backtrack.
    + destruct rooted; cbn [negb].
      * now apply IH.
      * apply IH. exact (cleanInv_dotdot out dotdot Hinv).
  - pose proof (copyElement_chars (String c rest1)) as Hel.
    cbn [copyElement] in *. rewrite Hc in *.
    destruct (copyElement rest1) as [el tl]. cbn [fst] in Hel.
    apply IH. apply (cleanInv_element rooted out (c :: el) dotdot Hinv);
      [discriminate | exact Hel].
Qed.

(** A cleaned path is ["."], or the bytes of a buffer without doubled
    separator that ends with a separator only when it is the root. *)
Lemma Clean_shape (p : string) :
  Clean p = "." \/
  exists out,
    Clean p = string_of_list_ascii out /\
    noDoubleSlash out = true /\
    (lastIsSlash out = true -> out = [slash]).
Proof.
  destruct p as [|c rest]; [now left |].
  unfold Clean.
  assert (Hloop : exists dd,
             cleanInv (isSlash c)
               (if isSlash c
                then cleanLoop (String.length (String c rest)) true rest
                               [slash] 1
                else cleanLoop (String.length (String c rest)) false
                               (String c rest) [] 0) dd).
  { destruct (isSlash c).
    - apply cleanLoop_inv. repeat split; reflexivity.
    - apply cleanLoop_inv. repeat split; try reflexivity;
        match goal with H : lastIsSlash _ = true |- _ => discriminate H end. }
  destruct Hloop as (dd & _ & I2 & I3 & _).
  match goal with
  | |- (if ?t then _ else _) = _ \/ _ => destruct t; [now left | right]
  end.
  eexists. split; [reflexivity |]. split; [exact I2 |].
  intros Hl. exact (proj1 (I3 Hl)).
Qed.

Lemma noDoubleSlash_double (x y : list ascii) :
  noDoubleSlash (x ++ slash :: slash :: y) = false.
Proof.
  induction x as [|a x IH]; [reflexivity |].
  cbn [app noDoubleSlash]. rewrite IH. apply andb_false_r.
Qed.

Lemma lastIsSlash_snoc (x : list ascii) : lastIsSlash (x ++ [slash]) = true.
Proof.
  unfold lastIsSlash. now rewrite last_app_nonempty by discriminate.
Qed.

(** [path.Clean] returns a path that ends with a separator only when it
    is ["/"]. *)
Lemma Clean_trailing (p a : string) :
  Clean p = a ++ "/" -> Clean p = "/".
Proof.
  intros Heq. destruct (Clean_shape p) as [Hdot|(out & Hout & _ & Hlast)].
  - rewrite Hdot in Heq. destruct a as [|c [|d a]]; discriminate.
  - assert (Ho : out = (list_ascii_of_string a ++ [slash])%list).
    { rewrite <- (list_ascii_of_string_of_list_ascii out), <- Hout, Heq.
      now rewrite list_ascii_of_string_app. }
    rewrite Ho in Hlast. specialize (Hlast (lastIsSlash_snoc _)).
    rewrite Hout, Ho, Hlast. reflexivity.
Qed.

(** [path.Clean] returns a path without two separators in a row. *)
Lemma Clean_no_double (p a b : string) :
  Clean p <> a ++ "//" ++ b.
Proof.
  intros Heq. destruct (Clean_shape p) as [Hdot|(out & Hout & Hnd & _)].
  - rewrite Hdot in Heq. destruct a as [|c [|d a]]; discriminate.
  - assert (Ho : out = (list_ascii_of_string a
                          ++ slash :: slash :: list_ascii_of_string b)%list).
    { rewrite <- (list_ascii_of_string_of_list_ascii out), <- Hout, Heq.
      now rewrite list_ascii_of_string_app. }
    rewrite Ho, noDoubleSlash_double in Hnd. discriminate.
Qed.

Lemma Join2_cases (a b : string) :
  path.Join [a; b] = "" \/ exists p, path.Join [a; b] = Clean p.
Proof.
  cbn [path.Join].
  destruct (String.eqb a ""); [|right; eauto].
  destruct (String.eqb b ""); [now left | right; eauto].
Qed.

End CleanInvariant.

(** ** Keys are clean paths *)

Section CleanKeys.

Variable env : Env.
Variable h : Heap.
Variable s : GSStore.

(** X23: whatever the base path and the name, the key of a name has no
    two separators in a row, and it ends with a separator only when it
    is ["/"]. *)
Theorem ObjectPath_is_clean (n : string) :
  (forall a, ObjectPath h s n = a ++ "/" -> ObjectPath h s n = "/") /\
  (forall a b, ObjectPath h s n <> a ++ "//" ++ b).
Proof.
  unfold ObjectPath.
  destruct (Join2_cases
              (strings.TrimLeft (Path (deref h (baseURL s))) "/")
              (pathWithExt (common s) n)) as [He|[p Hp]].
  - rewrite He. split.
    + intros a Ha. destruct a; discriminate.
    + intros a b Ha. destruct a; discriminate.
  - rewrite Hp. split.
    + apply Clean_trailing.
    + apply Clean_no_double.
Qed.

(** X24: the path of a sub-store has no two separators in a row, and it
    ends with a separator only when it is ["/"], whatever the parent's
    path and the segment. *)
Theorem SubStore_path_is_clean (subFolder : string) (parsed : URL)
        (c : Client) :
  url_Parse env (url_String env (deref h (baseURL s))) = inl parsed ->
  storage_NewClient env context_Background = inl c ->
  exists (s' : GSStore) (h' : Heap),
    SubStore env h s subFolder = (inl s', h') /\
    (forall a, Path (deref h' (baseURL s')) = a ++ "/" ->
               Path (deref h' (baseURL s')) = "/") /\
    (forall a b, Path (deref h' (baseURL s')) <> a ++ "//" ++ b).
Proof.
  intros Hparse Hclient.
  rewrite (SubStore_result env h s subFolder parsed c Hparse Hclient).
  eexists _, _. split; [reflexivity |]. cbn [baseURL].
  rewrite deref_setPath_same by (rewrite length_app; simpl; lia).
  cbn [Path].
  destruct (Join2_cases (Path parsed) subFolder) as [He|[p Hp]].
  - rewrite He. split.
    + intros a Ha. destruct a; discriminate.
    + intros a b Ha. destruct a; discriminate.
  - rewrite Hp. split.
    + apply Clean_trailing.
    + apply Clean_no_double.
Qed.

End CleanKeys.

Lemma SubStore_path_is_clean_witness :
  exists (s' : GSStore) (h' : Heap),
    SubStore (Sample.env []) Sample.heap (Sample.store [] ".txt" false)
             "x//y/" = (inl s', h') /\
    (forall a, Path (deref h' (baseURL s')) = a ++ "/" ->
               Path (deref h' (baseURL s')) = "/") /\
    (forall a b, Path (deref h' (baseURL s')) <> a ++ "//" ++ b).
Proof.
  apply (SubStore_path_is_clean (Sample.env []) Sample.heap
           (Sample.store [] ".txt" false) "x//y/"
           (mkURL "gs" "bkt" "/root") (Sample.bucketClient [])).
  - reflexivity.
  - reflexivity.
Defined.

(** ** Where the error of a walk comes from *)

Section WalkErrors.

Context {St : Type}.
Variable ctx : Context.
Variable h : Heap.
Variable s : GSStore.

Lemma walkLoop_error_origin (f : visitor St) (fin : error)
      (objs : list ObjectAttrs) :
  forall st e,
    walkErr (walkLoop h s f objs fin st) = Some e ->
    (e = fin /\ e <> iterator_Done) \/
    (e <> StopIteration /\
     exists n st0 st',
       In n (visited (walkLoop h s f objs fin st)) /\
       f n st0 = (Some e, st')).
Proof.
  induction objs as [|a objs IH]; intros st e He.
  - left. cbn [walkLoop] in He.
    destruct fin; cbn [walkErr] in He; try discriminate;
      injection He as <-; (split; [reflexivity | discriminate]).
  - cbn [walkLoop] in *.
    destruct (f (toBaseName h s (Name a)) st) as [[err|] st'] eqn:Hf.
    + right.
      destruct err; cbn [walkErr visited] in *; try discriminate;
        injection He as <-;
        (split; [discriminate |]);
        exists (toBaseName h s (Name a)), st, st';
        (split; [now left | exact Hf]).
    + cbn [walkErr visited] in *.
      destruct (IH st' e He) as [Hfin|(Hne & n & st0 & st2 & Hin & Hn)].
      * now left.
      * right. split; [exact Hne |].
        exists n, st0, st2. split; [now right | exact Hn].
Qed.

(** X25: an error returned by [WalkFrom] is either the error the
    iterator ended with, and then not [iterator.Done], or an error that
    the callback returned on a visited name, and then not
    [StopIteration]. *)
Theorem WalkFrom_error_origin (prefix sp : string) (f : visitor St)
        (st : St) (e : error) :
  walkErr (WalkFrom ctx h s prefix sp f st) = Some e ->
  (e = final (Bucket_Objects (client s) ctx (Host (deref h (baseURL s)))
                             (walkQuery h s prefix sp)) /\
   e <> iterator_Done) \/
  (e <> StopIteration /\
   exists n st0 st',
     In n (visited (WalkFrom ctx h s prefix sp f st)) /\
     f n st0 = (Some e, st')).
Proof. unfold WalkFrom. apply walkLoop_error_origin. Qed.

End WalkErrors.

Lemma WalkFrom_error_origin_witness :
  let s := Sample.store Sample.tenKeys ".txt" false in
  let f := Sample.failAt 3 (errorString "boom") in
  (errorString "boom"
   = final (Bucket_Objects (client s) 0 (Host (deref Sample.heap (baseURL s)))
                           (walkQuery Sample.heap s "" "")) /\
   errorString "boom" <> iterator_Done) \/
  (errorString "boom" <> StopIteration /\
   exists n st0 st',
     In n (visited (WalkFrom 0 Sample.heap s "" "" f 0)) /\
     f n st0 = (Some (errorString "boom"), st')).
Proof.
  apply (WalkFrom_error_origin 0 Sample.heap
           (Sample.store Sample.tenKeys ".txt" false) "" ""
           (Sample.failAt 3 (errorString "boom")) 0 (errorString "boom")).
  reflexivity.
Defined.

(** ** [strings.TrimRight] and [ObjectURL] on concrete inputs *)

Example TrimRight_ex1 : strings.TrimRight "a//" "/" = "a".
Proof. reflexivity. Qed.
Example TrimRight_ex2 : strings.TrimRight "/a/b/" "/" = "/a/b".
Proof. reflexivity. Qed.
Example TrimRight_ex3 : strings.TrimRight "///" "/" = "".
Proof. reflexivity. Qed.
Example TrimRight_ex4 : strings.TrimRight "" "/" = "".
Proof. reflexivity. Qed.

Example ObjectURL_ex :
  ObjectURL (Sample.env []) [mkURL "gs" "bkt" "/root/"]
            (Sample.store [] ".txt" false) "/a//b"
  = "gs://bkt/root/a//b.txt".
Proof. reflexivity. Qed.

(** ** The scope of a walk with the empty prefix *)

(** C4, evaluated on a store with base URL [gs://bkt/root/] whose bucket
    holds the object of the name ["a"]: the key of ["a"] is
    ["root/a.txt"], the object exists, but the query prefix of a walk
    with the empty prefix is ["root//"] and the walk visits nothing; with
    the non-empty prefix ["a"] the same function cleans the base through
    [filepath.Join] and the object is visited (under the name
    ["root/a"], since [toBaseName] does not clean the base either). *)
Theorem WalkFrom_empty_prefix_misses_own_keys :
  let h := [mkURL "gs" "bkt" "/root/"] in
  let s := Sample.store ["root/a.txt"] ".txt" false in
  ObjectPath h s "a" = "root/a.txt" /\
  FileExists 0 h s "a" = (true, None) /\
  Prefix (walkQuery h s "" "") = "root//" /\
  Walk 0 h s "" Sample.count 0 = mkWalkResult None 0 [] /\
  Prefix (walkQuery h s "a" "") = "root/a" /\
  visited (Walk 0 h s "a" Sample.count 0) = ["root/a"].
Proof. cbv zeta. repeat split; reflexivity. Qed.

(** The same on a store at the root of the bucket: the query prefix is
    ["/"], also under a non-empty prefix. *)
Example WalkFrom_bucket_root_ex :
  let h := [mkURL "gs" "bkt" ""] in
  let s := Sample.store ["a.txt"; "sub/b.txt"] ".txt" false in
  ObjectPath h s "a" = "a.txt" /\
  Prefix (walkQuery h s "" "") = "/" /\
  Walk 0 h s "" Sample.count 0 = mkWalkResult None 0 [] /\
  Prefix (walkQuery h s "sub/" "") = "/sub/" /\
  Walk 0 h s "sub/" Sample.count 0 = mkWalkResult None 0 [].
Proof. cbv zeta. repeat split; reflexivity. Qed.

(** With the base URL [gs://bkt/root] the walk visits the object. *)
Example WalkFrom_plain_base_ex :
  Prefix (walkQuery Sample.heap (Sample.store ["root/a.txt"] ".txt" false)
                    "" "") = "root/" /\
  Walk 0 Sample.heap (Sample.store ["root/a.txt"] ".txt" false) ""
       Sample.count 0
  = mkWalkResult None 1 ["a"].
Proof. split; reflexivity. Qed.

(** On a store whose base path is a plain path after any leading
    separators, the key of every plain name lies in the scope of the walk
    with the empty prefix. *)
Lemma walk_scope_covers_plain_keys (h : Heap) (s : GSStore)
      (n b sp : string) (i : nat) :
  Path (deref h (baseURL s)) = slashes i ++ b ->
  plainPath b -> plainPath (pathWithExt (common s) n) ->
  strings.HasPrefix (ObjectPath h s n) (Prefix (walkQuery h s "" sp)) = true.
Proof.
  intros Hbase Hb Hn.
  assert (Ht : strings.TrimLeft (Path (deref h (baseURL s))) "/" = b).
  { rewrite Hbase, TrimLeft_slashes.
    rewrite <- (append_nil_r b) at 1.
    rewrite TrimLeft_plain by exact Hb. apply append_nil_r. }
  rewrite walkQuery_unfold. cbv zeta. change (String.eqb "" "") with true.
  cbn [Prefix]. unfold ObjectPath. rewrite Ht.
  rewrite <- (append_nil_r b) at 1.
  rewrite <- (append_nil_r (pathWithExt (common s) n)) at 1.
  rewrite (Join2_plain b _ 0 0) by assumption.
  unfold strings.HasPrefix. rewrite <- append_assoc. apply prefix_append.
Qed.
